(** * Course discovery: the search coordinator and the facet merge

    A shallow embedding of
    - [lms/static/js/discovery/discovery_factory.js], the coordinator that
      wires the search form, the filter bar, the refinement sidebar and the
      listing to the search state, and
    - the discovery model it renders ([parse], [reset], [latest]), which
      merges one page of search results into the model's collections.

    JavaScript values are embedded as far as the code inspects them:
    truthiness, [Array.isArray], strict equality with a string literal and
    the conversion of a value to a property name.  A number of a document
    is kept as the text JavaScript prints for it; the counts the code
    computes are the integers [Z].  Strings are sequences of character
    codes below 256, compared code by code as [sort] does.

    JavaScript objects used as dictionaries are association lists in
    insertion order, the order in which [Object.keys] and [_.each]
    enumerate properties (names that are array indices apart, which come
    first), and a property is read and written as an own property of the
    object.  That is what the code does for every name except the dozen
    that every object inherits from [Object.prototype] ([inheritedNames]
    below: reading one of them gives the inherited value, and writing
    [__proto__] sets no property) and except [length], which as a numeric
    property makes [_.each] take the object for an array.  The statements
    on the tally and on the merge say which names they are about
    ([inherited], [ordinary], [ordinaryNames]). *)

From Stdlib Require Import List String Ascii ZArith Bool Lia.
From Stdlib Require Import Sorting.Sorted Sorting.Mergesort Permutation.
From Stdlib Require Import Structures.Orders Structures.OrdersEx.
Import ListNotations.
Local Open Scope string_scope.
Local Open Scope Z_scope.
Set Warnings "-register-all".

(** ** JavaScript values *)

(** A value of a document attribute.  The code only tests a value for
    truthiness and uses it as a property name, so a number is kept as
    [JsNumber text], where [text] is what [ToString] gives for it ([0] for
    both zeros, [NaN], [1e+21], ...), and [JsObject] stands for any object
    that is not an array and whose property name is [[object Object]], as
    it is for every object without a [toString] or a [valueOf] of its
    own. *)
Inductive JsValue : Type :=
| JsUndefined
| JsNull
| JsBool (b : bool)
| JsNumber (text : string)
| JsString (s : string)
| JsArray (elems : list JsValue)
| JsObject.

(** [ToBoolean]: of the numbers, the two zeros and [NaN] are falsy. *)
Definition truthy (v : JsValue) : bool :=
  match v with
  | JsUndefined | JsNull => false
  | JsBool b => b
  | JsNumber text => negb ((text =? "0") || (text =? "NaN"))%string
  | JsString s => negb (s =? "")%string
  | JsArray _ | JsObject => true
  end.

(** [v === s] for a string literal [s]. *)
Definition strictEqString (v : JsValue) (s : string) : bool :=
  match v with
  | JsString s' => (s' =? s)%string
  | _ => false
  end.

(** [Array.prototype.join] with separator [sep]. *)
Fixpoint join (sep : string) (parts : list string) : string :=
  match parts with
  | [] => ""
  | [p] => p
  | p :: rest => p ++ sep ++ join sep rest
  end.

(** [ToString], which is how a value becomes a property name in
    [tally[value]].  An array is joined with commas, [null] and [undefined]
    elements giving the empty string. *)
Fixpoint toString (v : JsValue) : string :=
  match v with
  | JsUndefined => "undefined"
  | JsNull => "null"
  | JsBool true => "true"
  | JsBool false => "false"
  | JsNumber text => text
  | JsString s => s
  | JsArray elems =>
      join "," (map (fun e => match e with
                             | JsUndefined | JsNull => ""
                             | _ => toString e
                             end) elems)
  | JsObject => "[object Object]"
  end.

(** The truthiness of a number, as in [!count] and [count || 0]. *)
Definition truthyNumber (n : Z) : bool := negb (n =? 0).

(** ** Objects as dictionaries *)

Module Obj.
Section Obj.
Context {V : Type}.

Definition t := list (string * V).

(** [o[k]] on the own properties of [o]; [None] is [undefined]. *)
Fixpoint get (k : string) (o : list (string * V)) : option V :=
  match o with
  | [] => None
  | (k', v) :: o' => if (k' =? k)%string then Some v else get k o'
  end.

(** [o[k] = v]: an existing property keeps its place, a new one is
    appended. *)
Fixpoint set (k : string) (v : V) (o : list (string * V)) : list (string * V) :=
  match o with
  | [] => [(k, v)]
  | (k', v') :: o' =>
      if (k' =? k)%string then (k, v) :: o' else (k', v') :: set k v o'
  end.

(** [delete o[k]]. *)
Definition delete (k : string) (o : list (string * V)) : list (string * V) :=
  filter (fun p => negb (fst p =? k)%string) o.

(** [Object.keys(o)] and [_.keys(o)]. *)
Definition keys (o : list (string * V)) : list string := map fst o.

(** [_.values(o)]. *)
Definition values (o : list (string * V)) : list V := map snd o.

(** An object holds each property name once. *)
Definition wf (o : list (string * V)) : Prop := NoDup (keys o).
End Obj.
Arguments t : clear implicits.
End Obj.

(** ** Abrupt completion *)

Inductive JsError : Type := TypeError.

Inductive Completion (A : Type) : Type :=
| Normal (a : A)
| Throw (e : JsError).
Arguments Normal {A} a.
Arguments Throw {A} e.

Definition bind {A B : Type} (c : Completion A) (k : A -> Completion B)
  : Completion B :=
  match c with
  | Normal a => k a
  | Throw e => Throw e
  end.

Notation "x <- c ;; k" := (bind c (fun x => k))
  (at level 61, c at next level, right associativity).

(** [xs.forEach] and [_.each] with a body that may throw: the loop stops
    at the first exception. *)
Fixpoint forEachM {A S : Type} (body : S -> A -> Completion S)
  (xs : list A) (s : S) : Completion S :=
  match xs with
  | [] => Normal s
  | x :: xs' => s' <- body s x ;; forEachM body xs' s'
  end.

(** ** The data of the discovery model *)

(** One search hit: [{data: {...document attributes...}}]. *)
Record Course : Type := { data : Obj.t JsValue }.

(** One entry of the aggregation: [{terms: {...}, total: n, other: n}].
    [terms = None] is an entry without a [terms] property. *)
Record Facet : Type := {
  terms : option (Obj.t Z);
  total : Z;
  other : Z
}.

(** The aggregation, facet type to entry; [None] is a [null] entry. *)
Definition Facets := Obj.t (option Facet).

(** The response of the search endpoint.  [None] is a missing (or falsy)
    property. *)
Record Response : Type := {
  results : option (list Course);
  aggs : option Facets
}.

Record FacetOption : Type := {
  facet : string;
  term : string;
  count : Z
}.

(** The model: its two attributes and its two collections. *)
Record Discovery : Type := {
  totalCount : Z;
  latestCount : Z;
  courseCards : list (Obj.t JsValue);
  facetOptions : list FacetOption
}.

(** [defaults] and [initialize]. *)
Definition initial : Discovery :=
  {| totalCount := 0; latestCount := 0; courseCards := []; facetOptions := [] |}.

(** [course.data[name]], for a name that is not inherited. *)
Definition prop (name : string) (o : Obj.t JsValue) : JsValue :=
  match Obj.get name o with
  | Some v => v
  | None => JsUndefined
  end.

(** ** [parse]: merging one page into the model *)

(** The callback of [courses.filter].  [isVideosPage] is
    [window.location.pathname === '/videos'], read once per call. *)
Definition keepCourse (isVideosPage : bool) (course : Course) : bool :=
  if isVideosPage
  then strictEqString (prop "course_type" (data course)) "video"
  else negb (strictEqString (prop "course_type" (data course)) "video").

(** "Remove unwanted facets": on the videos page the whole [course_type]
    entry goes, elsewhere only its [video] term, each under the guards of
    the source. *)
Definition removeUnwantedFacets (isVideosPage : bool) (facets : Facets) : Facets :=
  if isVideosPage then
    match Obj.get "course_type" facets with
    | Some (Some _) => Obj.delete "course_type" facets
    | _ => facets
    end
  else
    match Obj.get "course_type" facets with
    | Some (Some f) =>
        match terms f with
        | Some ts =>
            match Obj.get "video" ts with
            | Some c =>
                if truthyNumber c
                then Obj.set "course_type"
                       (Some {| terms := Some (Obj.delete "video" ts);
                                total := total f; other := other f |})
                       facets
                else facets
            | None => facets
            end
        | None => facets
        end
    | _ => facets
    end.

(** [allFacets[facetType] = {}] for every facet type (none of them
    [__proto__], which would set no property). *)
Definition emptyTally (facetTypes : list string) : Obj.t (Obj.t Z) :=
  fold_left (fun allFacets facetType => Obj.set facetType [] allFacets)
            facetTypes [].

(** [tally[key] = (tally[key] || 0) + 1], for a key that is not
    inherited: under such a key the tally holds nothing or a count. *)
Definition increment (key : string) (tally : Obj.t Z) : Obj.t Z :=
  let old := match Obj.get key tally with
             | Some c => if truthyNumber c then c else 0
             | None => 0
             end in
  Obj.set key (old + 1) tally.

(** [allFacets[facetType][value] = (allFacets[facetType][value] || 0) + 1].
    The inner object exists for every facet type the loops range over
    ([tally_defined] below), so the last branch is never taken. *)
Definition count1 (facetType : string) (value : JsValue)
  (allFacets : Obj.t (Obj.t Z)) : Obj.t (Obj.t Z) :=
  match Obj.get facetType allFacets with
  | Some tally => Obj.set facetType (increment (toString value) tally) allFacets
  | None => allFacets
  end.

(** The body of [facetTypes.forEach] for one course; the match on
    [JsArray] is [Array.isArray(facetValue)]. *)
Definition tallyAttribute (course : Course) (allFacets : Obj.t (Obj.t Z))
  (facetType : string) : Obj.t (Obj.t Z) :=
  let facetValue := prop facetType (data course) in
  if truthy facetValue then
    match facetValue with
    | JsArray elems =>
        fold_left (fun all value => count1 facetType value all) elems allFacets
    | _ => count1 facetType facetValue allFacets
    end
  else allFacets.

(** "Go through results and add any missing facet values":
    the two nested [forEach] loops. *)
Definition tallyCourses (facetTypes : list string) (courses : list Course)
  (allFacets : Obj.t (Obj.t Z)) : Obj.t (Obj.t Z) :=
  fold_left (fun all course => fold_left (tallyAttribute course) facetTypes all)
            courses allFacets.

(** [_.reduce(_.values(values), function(memo, num) { return memo + num; }, 0)]. *)
Definition sumValues (values : Obj.t Z) : Z :=
  fold_left (fun memo num => memo + num) (Obj.values values) 0.

(** The body of the inner [_.each(values, ...)], for a term that is not
    inherited: reading [facets[facetType].terms[term]] throws when the
    entry has no [terms]. *)
Definition mergeTerm (f : Facet) (entry : string * Z) : Completion Facet :=
  let (term, count) := entry in
  match terms f with
  | None => Throw TypeError
  | Some ts =>
      let merged := match Obj.get term ts with
                    | Some c => if truthyNumber c then c + count else count
                    | None => count
                    end in
      Normal {| terms := Some (Obj.set term merged ts);
                total := total f; other := other f |}
  end.

(** The body of [_.each(allFacets, ...)].  The inner [_.each] goes through
    the properties of [values], which is what it does as long as the tally
    holds no term [length]. *)
Definition mergeFacet (facets : Facets) (entry : string * Obj.t Z)
  : Completion Facets :=
  let (facetType, values) := entry in
  match Obj.get facetType facets with
  | Some (Some f) =>
      f' <- forEachM mergeTerm values f ;;
      Normal (Obj.set facetType (Some f') facets)
  | _ =>
      Normal (Obj.set facetType
                (Some {| terms := Some values;
                         total := sumValues values;
                         other := 0 |})
                facets)
  end.

(** "Filter facets to include only those relevant to the displayed list". *)
Definition mergeFacets (allFacets : Obj.t (Obj.t Z)) (facets : Facets)
  : Completion Facets :=
  forEachM mergeFacet allFacets facets.

(** [Array.prototype.sort] without a comparator, on property names: any
    sorting algorithm gives the same result.  Strings are compared
    character by character by code, a proper prefix first. *)
Module TermOrder <: Orders.TotalLeBool.
Definition t := string.
Definition leb (x y : string) : bool :=
  match OrdersEx.String_as_OT.compare x y with
  | Gt => false
  | _ => true
  end.
Lemma leb_total : forall x y, leb x y = true \/ leb y x = true.
Proof.
  intros x y. unfold leb.
  destruct (OrdersEx.String_as_OT.compare_spec x y) as [E | L | G];
    [left | left | right]; try reflexivity.
  unfold OrdersEx.String_as_OT.lt in G. rewrite G. reflexivity.
Qed.
End TermOrder.

Module TermSort := Mergesort.Sort TermOrder.

Definition sortTerms (ts : list string) : list string := TermSort.sort ts.

(** [obj.terms[term]] as the [count] of a new option; the [FacetOption]
    default for a missing count is [0]. *)
Definition countOf (term : string) (ts : Obj.t Z) : Z :=
  match Obj.get term ts with
  | Some c => c
  | None => 0
  end.

(** The options one entry of the merged facets contributes, in the order
    they are added: [_.keys(obj.terms).sort()], and [_.keys] of a missing
    [terms] is the empty list. *)
Definition facetAdds (key : string) (obj : Facet) : list FacetOption :=
  match terms obj with
  | Some ts =>
      map (fun term => {| facet := key; term := term; count := countOf term ts |})
          (sortTerms (Obj.keys ts))
  | None => []
  end.

Definition sameOption (a b : FacetOption) : bool :=
  ((facet a =? facet b) && (term a =? term b))%string.

(** Modelled from the spec: the collection of facet options, whose source
    is not part of the files at hand.  An option is unique by its
    (facet, term) pair; adding one whose pair is present overwrites the
    count of the one held, in place, and adding any other appends it. *)
Fixpoint addOption (o : FacetOption) (options : list FacetOption)
  : list FacetOption :=
  match options with
  | [] => [o]
  | o' :: rest =>
      if sameOption o' o then o :: rest else o' :: addOption o rest
  end.

Definition addOptions (adds options : list FacetOption) : list FacetOption :=
  fold_left (fun opts o => addOption o opts) adds options.

(** "Add facet options to the collection": [_(facets).each].  Reading
    [obj.terms] of a [null] entry throws, the options added so far stay. *)
Fixpoint addFacetOptions (facets : Facets) (options : list FacetOption)
  : Completion unit * list FacetOption :=
  match facets with
  | [] => (Normal tt, options)
  | (key, Some obj) :: rest =>
      addFacetOptions rest (addOptions (facetAdds key obj) options)
  | (_, None) :: _ => (Throw TypeError, options)
  end.

(** The facets of one page after the removal of the unwanted ones and the
    merge of the local tally: the value of [facets] when the last loop of
    [parse] starts. *)
Definition pageFacets (isVideosPage : bool) (courses : list Course)
  (aggregation : Facets) : Completion Facets :=
  let facets := removeUnwantedFacets isVideosPage aggregation in
  let facetTypes := Obj.keys facets in
  let allFacets := tallyCourses facetTypes courses (emptyTally facetTypes) in
  mergeFacets allFacets facets.

(** [parse(response)].  The result pairs how the call completes with the
    model it leaves: the course cards and the two counts are written
    before anything can throw.  The response is read as it is when the
    call starts; the call works on [response.aggs] in place, and what that
    object holds afterwards is [aggsAfter] below.

    Modelled from the spec: [courseCards.add] appends the surviving
    documents (the collection's source is not part of the files at hand). *)
Definition parse (isVideosPage : bool) (response : Response) (this : Discovery)
  : Completion unit * Discovery :=
  let courses := match results response with Some cs => cs | None => [] end in
  let facets := match aggs response with Some fs => fs | None => [] end in
  let options := facetOptions this in
  let courses := filter (keepCourse isVideosPage) courses in
  let this := {| totalCount := Z.of_nat (List.length courses);
                 latestCount := Z.of_nat (List.length courses);
                 courseCards := courseCards this ++ map data courses;
                 facetOptions := options |} in
  match pageFacets isVideosPage courses facets with
  | Throw e => (Throw e, this)
  | Normal facets =>
      let (completion, options') := addFacetOptions facets options in
      (completion,
       {| totalCount := totalCount this;
          latestCount := latestCount this;
          courseCards := courseCards this;
          facetOptions := options' |})
  end.




(** [reset()]. *)
Definition reset (this : Discovery) : Discovery :=
  {| totalCount := 0; latestCount := 0; courseCards := []; facetOptions := [] |}.

(** [latest()]: the last [latestCount] course cards. *)
Definition latest (this : Discovery) : list (Obj.t JsValue) :=
  skipn (List.length (courseCards this) - Z.to_nat (latestCount this))
        (courseCards this).

(** ** The coordinator *)

(** One active refinement: [{type, query, name}]. *)
Record Filter : Type := {
  type : string;
  query : string;
  name : string
}.

Module Filters.
(** Modelled from the spec: the filter collection, whose source is not
    part of the files at hand.  It is an ordered collection of filter
    terms keyed by [type], a type held at most once.  [add] on a type
    that is held overwrites the term in place (the lenient policy, with
    or without [merge]) and appends it otherwise; [remove] of a type not
    held does nothing; [getTerms] gives the terms held in insertion
    order. *)
Definition t := list Filter.

Definition get (ty : string) (fs : t) : option Filter :=
  find (fun f => (type f =? ty)%string) fs.

Fixpoint add (merge : bool) (f : Filter) (fs : t) : t :=
  match fs with
  | [] => [f]
  | g :: rest =>
      if (type g =? type f)%string then f :: rest else g :: add merge f rest
  end.

Definition remove (ty : string) (fs : t) : t :=
  filter (fun f => negb (type f =? ty)%string) fs.

Definition reset (fs : t) : t := [].

Definition getTerms (fs : t) : list Filter := fs.
End Filters.

(** What the search form shows under the input. *)
Inductive Message : Type :=
| NoMessage
| FoundMessage (total : Z)
| NotFoundMessage (query : string)
| ErrorMessage (text : string).

(** The calls the coordinator makes on the search state. *)
Inductive Request : Type :=
| PerformSearch (query : string) (terms : list Filter)
| RefineSearch (terms : list Filter)
| LoadNextPage.

(** The render calls it makes on the listing and the sidebar. *)
Inductive Render : Type :=
| ListingRender
| ListingRenderNext
| SidebarRender.

(** What the handlers of the coordinator read and write: the filter
    collection, the loading indicator and the message of the form, and the
    calls made so far on the search state and on the views, oldest first. *)
Record Page : Type := {
  filters : Filters.t;
  loadingIndicator : bool;
  message : Message;
  requests : list Request;
  renders : list Render
}.

Definition setFilters (fs : Filters.t) (p : Page) : Page :=
  {| filters := fs; loadingIndicator := loadingIndicator p;
     message := message p; requests := requests p; renders := renders p |}.

Definition setLoadingIndicator (b : bool) (p : Page) : Page :=
  {| filters := filters p; loadingIndicator := b;
     message := message p; requests := requests p; renders := renders p |}.

Definition showMessage (m : Message) (p : Page) : Page :=
  {| filters := filters p; loadingIndicator := loadingIndicator p;
     message := m; requests := requests p; renders := renders p |}.

Definition request (r : Request) (p : Page) : Page :=
  {| filters := filters p; loadingIndicator := loadingIndicator p;
     message := message p; requests := requests p ++ [r]; renders := renders p |}.

Definition render (r : Render) (p : Page) : Page :=
  {| filters := filters p; loadingIndicator := loadingIndicator p;
     message := message p; requests := requests p; renders := renders p ++ [r] |}.

(** The handler of the form's ['search'] event. *)
Definition onFormSearch (q : string) (p : Page) : Page :=
  let p := setFilters (Filters.reset (filters p)) p in
  let p := setLoadingIndicator true p in
  request (PerformSearch q (Filters.getTerms (filters p))) p.

(** Modelled from the spec: [form.doSearch(query)] of the search form view,
    whose source is not part of the files at hand, submits [query] as a
    free-text search, which runs the handler of the form's ['search']
    event. *)
Definition doSearch (q : string) (p : Page) : Page := onFormSearch q p.

Definition doubleQuote : string := String (ascii_of_nat 34) EmptyString.

(** [quote(string)]. *)
Definition quote (s : string) : string :=
  (doubleQuote ++ s ++ doubleQuote)%string.

(** [removeFilter(type)], also the handler of the filter bar's
    ['clearFilter'] event. *)
Definition removeFilter (ty : string) (p : Page) : Page :=
  let p := setLoadingIndicator true p in
  let p := setFilters (Filters.remove ty (filters p)) p in
  if (ty =? "search_query")%string
  then doSearch "" p
  else request (RefineSearch (Filters.getTerms (filters p))) p.

(** [handleQueryParams(type, query, name)], the handler of the sidebar's
    ['selectOption'] event. *)
Definition handleQueryParams (ty q nm : string) (p : Page) : Page :=
  let p := setLoadingIndicator true p in
  match Filters.get ty (filters p) with
  | Some _ => removeFilter ty p
  | None =>
      let p := setFilters
                 (Filters.add false {| type := ty; query := q; name := nm |}
                              (filters p)) p in
      request (RefineSearch (Filters.getTerms (filters p))) p
  end.

(** The handler of the filter bar's ['clearAll'] event. *)
Definition onClearAll (p : Page) : Page := doSearch "" p.

(** The handler of the listing's ['next'] event. *)
Definition onListingNext (p : Page) : Page := request LoadNextPage p.

(** The handler of the search state's ['next'] event. *)
Definition onSearchNext (p : Page) : Page := render ListingRenderNext p.

(** The handler of the search state's ['search'] event, which carries the
    query and the total count. *)
Definition onSearch (q : string) (total : Z) (p : Page) : Page :=
  let p :=
    if 0 <? total then
      let p := showMessage (FoundMessage total) p in
      if negb (q =? "")%string
      then setFilters
             (Filters.add true
                {| type := "search_query"; query := q; name := quote q |}
                (filters p)) p
      else p
    else
      let p := showMessage (NotFoundMessage q) p in
      setFilters (Filters.reset (filters p)) p in
  let p := setLoadingIndicator false p in
  let p := render ListingRender p in
  render SidebarRender p.

(** The handler of the search state's ['error'] event. *)
Definition onSearchError (errorMessage : string) (p : Page) : Page :=
  setLoadingIndicator false (showMessage (ErrorMessage errorMessage) p).

(** ** The events the coordinator listens to *)

(** The events of the views, as [dispatcher.listenTo] binds them: the
    form's ['search'], the sidebar's ['selectOption'], the filter bar's
    ['clearFilter'] and ['clearAll'], and the listing's ['next']. *)
Inductive ViewEvent : Type :=
| FormSearch (query : string)
| SelectOption (type query name : string)
| ClearFilter (type : string)
| ClearAll
| ListingNext.

(** The events of the search state: ['search'], ['next'] and ['error']
    (whose handler reads [search.errorMessage]). *)
Inductive SearchEvent : Type :=
| SearchDone (query : string) (total : Z)
| SearchNext
| SearchError (errorMessage : string).

Definition onViewEvent (e : ViewEvent) (p : Page) : Page :=
  match e with
  | FormSearch q => onFormSearch q p
  | SelectOption ty q nm => handleQueryParams ty q nm p
  | ClearFilter ty => removeFilter ty p
  | ClearAll => onClearAll p
  | ListingNext => onListingNext p
  end.

Definition onSearchEvent (e : SearchEvent) (p : Page) : Page :=
  match e with
  | SearchDone q total => onSearch q total p
  | SearchNext => onSearchNext p
  | SearchError errorMessage => onSearchError errorMessage p
  end.

(** ** The query string of the page address *)

(** [s.split(sep)] for a separator of one character, as the first piece
    and the pieces after it: the empty string splits into one empty
    piece. *)
Fixpoint splitPieces (sep : ascii) (s : string) : string * list string :=
  match s with
  | EmptyString => (EmptyString, [])
  | String c rest =>
      let (first, others) := splitPieces sep rest in
      if Ascii.eqb c sep
      then (EmptyString, first :: others)
      else (String c first, others)
  end.

Definition split (sep : ascii) (s : string) : list string :=
  let (first, others) := splitPieces sep s in first :: others.

(** [s.substring(1)]. *)
Definition substring1 (s : string) : string :=
  match s with
  | EmptyString => EmptyString
  | String _ rest => rest
  end.

Definition ampersand : ascii := ascii_of_nat 38.
Definition equalsSign : ascii := ascii_of_nat 61.

Section QueryParams.
(** [decodeURIComponent] on a string; [None] is the [URIError] it throws on
    a malformed escape sequence. *)
Variable decodeURIComponent : string -> option string.

(** The body of the loop of [getQueryParams]:
    [params[decodeURIComponent(pair[0])] = decodeURIComponent(pair[1])]
    with [pair = queryArray[i].split('=')].  A piece without an equals sign
    has no [pair[1]], and [decodeURIComponent(undefined)] decodes the text
    [undefined]. *)
Definition setParam (params : Obj.t string) (piece : string)
  : option (Obj.t string) :=
  let (pair0, others) := splitPieces equalsSign piece in
  let pair1 := match others with s :: _ => s | [] => "undefined" end in
  match decodeURIComponent pair0 with
  | None => None
  | Some key =>
      match decodeURIComponent pair1 with
      | None => None
      | Some value => Some (Obj.set key value params)
      end
  end.

Fixpoint setParams (params : Obj.t string) (queryArray : list string)
  : option (Obj.t string) :=
  match queryArray with
  | [] => Some params
  | piece :: rest =>
      match setParam params piece with
      | None => None
      | Some params' => setParams params' rest
      end
  end.

(** [getQueryParams()], with [window.location.search] as its argument;
    [None] when a [URIError] is thrown. *)
Definition getQueryParams (search : string) : option (Obj.t string) :=
  let queryString := substring1 search in
  let queryArray := split ampersand queryString in
  setParams [] queryArray.

(** The truthiness of [params.name]: the parameter is there and is not
    the empty string. *)
Definition param (name : string) (params : Obj.t string) : option string :=
  match Obj.get name params with
  | Some s => if (s =? "")%string then None else Some s
  | None => None
  end.

(** [onPageLoad()]; [None] when [getQueryParams] throws, which leaves the
    page as it is. *)
Definition onPageLoad (search : string) (p : Page) : option Page :=
  match getQueryParams search with
  | None => None
  | Some params =>
      match param "type" params, param "query" params, param "name" params with
      | Some ty, Some q, Some nm => Some (handleQueryParams ty q nm p)
      | _, _, _ => Some p
      end
  end.
End QueryParams.

(** * Notions used in the statements *)

(** The property names every object inherits from [Object.prototype].
    Reading one of them on an object that does not hold it as its own
    gives the inherited value, not [undefined], and writing [__proto__]
    sets no property. *)
Definition inheritedNames : list string :=
  ["__proto__"; "constructor"; "hasOwnProperty"; "isPrototypeOf";
   "propertyIsEnumerable"; "toLocaleString"; "toString"; "valueOf";
   "__defineGetter__"; "__defineSetter__"; "__lookupGetter__";
   "__lookupSetter__"].

Definition inherited (name : string) : bool :=
  existsb (String.eqb name) inheritedNames.

(** A name that the tally holds the way the dictionaries of this file
    do: it is not inherited, and it is not [length], which would make
    [_.each] go through the tally as through an array. *)
Definition ordinary (name : string) : bool :=
  negb (inherited name) && negb (name =? "length")%string.

(** The property names under which the tally counts an attribute value:
    none for a falsy value, those of the elements for an array, its own
    for any other value. *)
Definition talliedNames (v : JsValue) : list string :=
  if truthy v then
    match v with
    | JsArray elems => map toString elems
    | _ => [toString v]
    end
  else [].

(** The terms an entry of the aggregation holds. *)
Definition entryTerms (entry : option Facet) : list string :=
  match entry with
  | Some f => match terms f with
              | Some ts => Obj.keys ts
              | None => []
              end
  | None => []
  end.

(** No facet type and no term of the aggregation is an inherited name,
    and the documents are tallied under ordinary names only. *)
Definition ordinaryNames (facets : Facets) (courses : list Course) : bool :=
  forallb (fun entry =>
             negb (inherited (fst entry))
             && forallb (fun term => negb (inherited term))
                        (entryTerms (snd entry))
             && forallb (fun course =>
                           forallb ordinary
                                   (talliedNames (prop (fst entry) (data course))))
                        courses)
          facets.

(** What one attribute value adds to the tally of [term]: nothing when
    the value is falsy, one per element whose property name is [term] when
    it is an array (no element is tested for truthiness), and one when the
    property name of any other truthy value is [term]. *)
Definition occurrences (term : string) (v : JsValue) : Z :=
  if truthy v then
    match v with
    | JsArray elems =>
        Z.of_nat (List.length
                    (filter (fun e => (toString e =? term)%string) elems))
    | _ => if (toString v =? term)%string then 1 else 0
    end
  else 0.

(** The same with every occurrence required to be truthy: a falsy element
    of an array does not count. *)
Definition truthyOccurrences (term : string) (v : JsValue) : Z :=
  if truthy v then
    match v with
    | JsArray elems =>
        Z.of_nat (List.length
                    (filter (fun e => truthy e && (toString e =? term)%string)
                            elems))
    | _ => if (toString v =? term)%string then 1 else 0
    end
  else 0.

Definition sumOver (f : JsValue -> Z) (facetType : string)
  (courses : list Course) : Z :=
  fold_right (fun course acc => f (prop facetType (data course)) + acc)
             0 courses.

(** The count the tally holds for [term] under [facetType]; [0] when it
    holds none. *)
Definition tallied (allFacets : Obj.t (Obj.t Z)) (facetType term : string) : Z :=
  match Obj.get facetType allFacets with
  | Some tally => countOf term tally
  | None => 0
  end.

Definition defined (allFacets : Obj.t (Obj.t Z)) (facetType : string) : Prop :=
  Obj.get facetType allFacets <> None.

Definition survivors (isVideosPage : bool) (response : Response) : list Course :=
  filter (keepCourse isVideosPage)
         (match results response with Some cs => cs | None => [] end).

Definition rawResults (response : Response) : list Course :=
  match results response with Some cs => cs | None => [] end.

Definition scenarioAggregation : Facets :=
  [("subject", Some {| terms := Some [("cs", 2)]; total := 2; other := 0 |})].

Definition scenarioResponse (video document : Course) : Response :=
  {| results := Some [video; document]; aggs := Some scenarioAggregation |}.

Definition scenarioVideo : Course :=
  {| data := [("id", JsString "v1"); ("course_type", JsString "video");
              ("subject", JsString "cs")] |}.

Definition scenarioCourse : Course :=
  {| data := [("id", JsString "c1"); ("course_type", JsString "course");
              ("subject", JsString "cs")] |}.

(** The filter terms a call on the search state submits. *)
Definition requestTerms (r : Request) : list Filter :=
  match r with
  | PerformSearch _ ts => ts
  | RefineSearch ts => ts
  | LoadNextPage => []
  end.

(** Every entry of the aggregation that is an object has a [terms] object. *)
Definition shaped (facets : Facets) : Prop :=
  forall facetType f, Obj.get facetType facets = Some (Some f) ->
                      terms f <> None.

(** The count a term ends up with: the local count, added to the count the
    entry holds when it holds one. *)
Definition mergedCount (held : option Z) (count : Z) : Z :=
  match held with
  | Some c => c + count
  | None => count
  end.

(** What [mergeFacet] leaves under the facet type it merges. *)
Definition mergedEntry (held : option (option Facet)) (values : Obj.t Z)
  : Completion Facet :=
  match held with
  | Some (Some f) => forEachM mergeTerm values f
  | _ => Normal {| terms := Some values; total := sumValues values; other := 0 |}
  end.

(** [response.aggs || {}]. *)
Definition aggregationOf (response : Response) : Facets :=
  match aggs response with Some fs => fs | None => [] end.

(** The aggregation holds each facet type once, and each entry that is
    not [null] has a [terms] object that holds each term once. *)
Definition wfAggregation (facets : Facets) : Prop :=
  Obj.wf facets
  /\ forall facetType f,
       Obj.get facetType facets = Some (Some f) ->
       exists ts, terms f = Some ts /\ Obj.wf ts.

(** Every object of the aggregation holds each property name once. *)
Definition wfNames (facets : Facets) : Prop :=
  Obj.wf facets
  /\ forall facetType f ts,
       Obj.get facetType facets = Some (Some f) ->
       terms f = Some ts ->
       Obj.wf ts.


(** The tally holds each facet type once, each of its objects holds each
    term once, and every count it holds is positive. *)
Definition wfTally (allFacets : Obj.t (Obj.t Z)) : Prop :=
  Obj.wf allFacets
  /\ forall facetType tally,
       Obj.get facetType allFacets = Some tally ->
       Obj.wf tally /\ forall term c, Obj.get term tally = Some c -> 0 < c.

(** The terms the aggregation holds for a facet type. *)
Definition serverTerms (facets : Facets) (facetType : string) : list string :=
  match Obj.get facetType facets with
  | Some (Some f) =>
      match terms f with
      | Some ts => Obj.keys ts
      | None => []
      end
  | _ => []
  end.

(** Strictly ascending lexicographic order on strings. *)
Definition termLt : string -> string -> Prop := OrdersEx.String_as_OT.lt.

(** The count the collection holds for a (facet, term) pair. *)
Definition optionCount (facetType t : string) (options : list FacetOption)
  : option Z :=
  option_map count
    (find (fun o => ((facet o =? facetType) && (term o =? t))%string) options).

(** The options one call of [parse] adds, in the order it adds them. *)
Definition pageAdds (facets : Facets) : list FacetOption :=
  flat_map (fun entry => match snd entry with
                         | Some obj => facetAdds (fst entry) obj
                         | None => []
                         end) facets.

(** The options [parse] adds on a response, in the order it adds them;
    it adds none when the merge throws. *)
Definition parseAdds (isVideosPage : bool) (response : Response)
  : list FacetOption :=
  match pageFacets isVideosPage (survivors isVideosPage response)
                   (aggregationOf response) with
  | Normal facets => pageAdds facets
  | Throw _ => []
  end.

(** The pair a facet option is unique by. *)
Definition optionKey (o : FacetOption) : string * string := (facet o, term o).

Fixpoint nodupb (l : list string) : bool :=
  match l with
  | [] => true
  | x :: rest => negb (existsb (String.eqb x) rest) && nodupb rest
  end.

Definition wfAggregationb (facets : Facets) : bool :=
  nodupb (Obj.keys facets)
  && forallb (fun entry => match snd entry with
                           | Some f => match terms f with
                                       | Some ts => nodupb (Obj.keys ts)
                                       | None => false
                                       end
                           | None => true
                           end) facets.

Definition orderResponse : Response :=
  {| results :=
       Some [ {| data := [("id", JsString "c1");
                          ("subject", JsArray [JsString "math"; JsString "art"])] |} ];
     aggs :=
       Some [("subject",
              Some {| terms := Some [("physics", 4); ("cs", 2)];
                      total := 6; other := 0 |})] |}.


Definition mergeAggregation : Facets :=
  [("subject", Some {| terms := Some [("cs", 2)]; total := 2; other := 0 |});
   ("language", None)].

Definition mergeDocument : Course :=
  {| data := [("subject", JsArray [JsString "cs"; JsString "math"]);
              ("language", JsString "en")] |}.

Definition firstDocument : Course :=
  {| data := [("id", JsString "a"); ("subject", JsString "cs")] |}.


(** [free c s]: the character [c] does not occur in [s]. *)
Fixpoint free (c : ascii) (s : string) : bool :=
  match s with
  | EmptyString => true
  | String c' rest => negb (Ascii.eqb c' c) && free c rest
  end.

(** A name or a value that holds no ampersand and no equals sign. *)
Definition plain (s : string) : bool := free ampersand s && free equalsSign s.

(** The query string [name1=value1&name2=value2...] of a list of pairs. *)
Definition buildQuery (pairs : list (string * string)) : string :=
  join (String ampersand EmptyString)
       (map (fun kv => (fst kv ++ String equalsSign (snd kv))%string) pairs).

(** The value of the last pair of that name. *)
Definition lastValue (name : string) (pairs : list (string * string))
  : option string :=
  option_map snd (find (fun kv => (fst kv =? name)%string) (rev pairs)).

(** The name and the value [setParam] reads off a piece of the query
    string, before decoding. *)
Definition pieceName (piece : string) : string :=
  fst (splitPieces equalsSign piece).

Definition pieceValue (piece : string) : string :=
  match snd (splitPieces equalsSign piece) with
  | s :: _ => s
  | [] => "undefined"
  end.

(** The pieces of the query string of an address. *)
Definition queryPieces (search : string) : list string :=
  split ampersand (substring1 search).

(** [decodeURIComponent] on the strings without a percent sign, which it
    returns as they are; this decoder gives up on every escape. *)
Definition decodePlain (s : string) : option string :=
  if free (ascii_of_nat 37) s then Some s else None.

(** An event the coordinator handles: one of a view or one of the search
    state. *)
Inductive Event : Type :=
| OfView (e : ViewEvent)
| OfSearch (e : SearchEvent).

Definition step (p : Page) (e : Event) : Page :=
  match e with
  | OfView e => onViewEvent e p
  | OfSearch e => onSearchEvent e p
  end.

(** The page after a sequence of events, handled in order. *)
Definition run (events : list Event) (p : Page) : Page :=
  fold_left step events p.

(** The number of view events in a sequence. *)
Fixpoint viewEvents (events : list Event) : nat :=
  match events with
  | [] => 0%nat
  | OfView _ :: rest => S (viewEvents rest)
  | OfSearch _ :: rest => viewEvents rest
  end.


Definition videosResponse : Response :=
  {| results := Some [scenarioVideo];
     aggs := Some [("course_type",
                    Some {| terms := Some [("video", 1); ("course", 4)];
                            total := 5; other := 0 |});
                   ("subject",
                    Some {| terms := Some [("cs", 2)];
                            total := 2; other := 0 |})] |}.

Definition mixedResponse : Response :=
  {| results := Some [scenarioVideo; scenarioCourse];
     aggs := Some [("course_type",
                    Some {| terms := Some [("video", 1); ("course", 1)];
                            total := 2; other := 0 |})] |}.


Definition noTermsResponse : Response :=
  {| results := Some [scenarioVideo];
     aggs := Some [("subject",
                    Some {| terms := None; total := 1; other := 0 |})] |}.

Definition bootstrapPairs : list (string * string) :=
  [("type", "subject"); ("query", "cs"); ("name", "CS")].

(** * Properties *)

(** ** Dictionaries *)

Section ObjFacts.
Context {V : Type}.
Implicit Types (o : list (string * V)) (k : string) (v : V).

Lemma get_set_eq k v o : Obj.get k (Obj.set k v o) = Some v.
Proof.
  induction o as [| [k' v'] o IH]; simpl.
  - now rewrite String.eqb_refl.
  - destruct (String.eqb_spec k' k) as [-> | N]; simpl.
    + now rewrite String.eqb_refl.
    + apply String.eqb_neq in N. now rewrite N.
Qed.

Lemma get_set_ne k k' v o :
  k <> k' -> Obj.get k' (Obj.set k v o) = Obj.get k' o.
Proof.
  intros N. induction o as [| [k0 v0] o IH]; simpl.
  - apply String.eqb_neq in N. now rewrite N.
  - destruct (String.eqb_spec k0 k) as [-> | N0]; simpl.
    + apply String.eqb_neq in N. now rewrite N.
    + now rewrite IH.
Qed.

Lemma get_none k o : Obj.get k o = None <-> ~ In k (Obj.keys o).
Proof.
  induction o as [| [k' v'] o IH]; simpl.
  - tauto.
  - destruct (String.eqb_spec k' k) as [-> | N].
    + split; [discriminate | tauto].
    + rewrite IH. tauto.
Qed.

Lemma get_some_in k v o : Obj.get k o = Some v -> In (k, v) o.
Proof.
  induction o as [| [k' v'] o IH]; simpl; [discriminate |].
  destruct (String.eqb_spec k' k) as [-> | N].
  - intros [= ->]. now left.
  - intros H. right. now apply IH.
Qed.

Lemma in_get k v o : Obj.wf o -> In (k, v) o -> Obj.get k o = Some v.
Proof.
  unfold Obj.wf. induction o as [| [k' v'] o IH]; simpl; [tauto |].
  intros W [E | I].
  - injection E as -> ->. now rewrite String.eqb_refl.
  - inversion W as [| ? ? NI W']; subst.
    destruct (String.eqb_spec k' k) as [-> | N].
    + exfalso. apply NI. change k with (fst (k, v)). now apply in_map.
    + now apply IH.
Qed.

Lemma in_keys_set k k' v o :
  In k' (Obj.keys (Obj.set k v o)) <-> k' = k \/ In k' (Obj.keys o).
Proof.
  induction o as [| [k0 v0] o IH]; simpl.
  - intuition congruence.
  - destruct (String.eqb_spec k0 k) as [-> | N]; simpl.
    + intuition congruence.
    + rewrite IH. tauto.
Qed.

Lemma wf_set k v o : Obj.wf o -> Obj.wf (Obj.set k v o).
Proof.
  unfold Obj.wf. induction o as [| [k0 v0] o IH]; simpl; intros W.
  - constructor; [simpl; tauto | constructor].
  - inversion W as [| ? ? NI W']; subst.
    destruct (String.eqb_spec k0 k) as [-> | N]; simpl.
    + now constructor.
    + constructor; [| now apply IH].
      intros I. apply (in_keys_set k k0 v o) in I. destruct I; congruence.
Qed.

Lemma get_delete_eq k o : Obj.get k (Obj.delete k o) = None.
Proof.
  unfold Obj.delete. induction o as [| [k' v'] o IH]; simpl; [reflexivity |].
  destruct (String.eqb_spec k' k) as [-> | N]; simpl; [exact IH |].
  apply String.eqb_neq in N. now rewrite N.
Qed.

Lemma get_delete_ne k k' o :
  k <> k' -> Obj.get k' (Obj.delete k o) = Obj.get k' o.
Proof.
  intros N. unfold Obj.delete.
  induction o as [| [k0 v0] o IH]; simpl; [reflexivity |].
  destruct (String.eqb_spec k0 k) as [-> | N0]; simpl.
  - apply String.eqb_neq in N. now rewrite N.
  - now rewrite IH.
Qed.

Lemma wf_delete k o : Obj.wf o -> Obj.wf (Obj.delete k o).
Proof.
  unfold Obj.wf, Obj.delete, Obj.keys.
  induction o as [| [k0 v0] o IH]; simpl; intros W; [constructor |].
  inversion W as [| ? ? NI W']; subst.
  destruct (negb (k0 =? k)%string); simpl; [| now apply IH].
  constructor; [| now apply IH].
  intros I. apply NI. apply in_map_iff in I. destruct I as [[a b] [E I]].
  apply filter_In in I. destruct I as [I _]. simpl in E. subst.
  change k0 with (fst (k0, b)). now apply in_map.
Qed.
End ObjFacts.

(** ** Deciding well-formedness *)

Lemma nodupb_sound l : nodupb l = true -> NoDup l.
Proof.
  induction l as [| x l IH]; simpl; intros H; constructor.
  - apply andb_true_iff in H. destruct H as [N _].
    apply negb_true_iff in N. intros I.
    assert (E : existsb (String.eqb x) l = true).
    { apply existsb_exists. exists x. split; [exact I | apply String.eqb_refl]. }
    congruence.
  - apply IH. apply andb_true_iff in H. tauto.
Qed.

Lemma wfAggregationb_sound facets :
  wfAggregationb facets = true -> wfAggregation facets.
Proof.
  unfold wfAggregationb. intros H. apply andb_true_iff in H.
  destruct H as [N F]. split; [now apply nodupb_sound |].
  intros ft f G. apply get_some_in in G.
  rewrite forallb_forall in F. specialize (F _ G). simpl in F.
  destruct (terms f) as [ts |]; [| discriminate].
  exists ts. split; [reflexivity | now apply nodupb_sound].
Qed.

(** ** The local tally *)

Lemma countOf_increment key term tally :
  countOf term (increment key tally)
  = countOf term tally + (if (key =? term)%string then 1 else 0).
Proof.
  unfold increment, countOf.
  destruct (String.eqb_spec key term) as [-> | N].
  - rewrite get_set_eq. destruct (Obj.get term tally) as [c |]; [| reflexivity].
    unfold truthyNumber. destruct (Z.eqb_spec c 0); simpl; lia.
  - rewrite get_set_ne by assumption. lia.
Qed.

Lemma defined_set (allFacets : Obj.t (Obj.t Z)) k v facetType :
  defined allFacets facetType -> defined (Obj.set k v allFacets) facetType.
Proof.
  unfold defined. intros D.
  destruct (String.eqb_spec k facetType) as [-> | N].
  - now rewrite get_set_eq.
  - now rewrite get_set_ne.
Qed.

Lemma defined_count1 facetType value allFacets facetType' :
  defined allFacets facetType' ->
  defined (count1 facetType value allFacets) facetType'.
Proof.
  unfold count1. destruct (Obj.get facetType allFacets); [| trivial].
  apply defined_set.
Qed.

Lemma tallied_count1 facetType value allFacets facetType' term :
  defined allFacets facetType ->
  tallied (count1 facetType value allFacets) facetType' term
  = tallied allFacets facetType' term
    + (if ((facetType =? facetType') && (toString value =? term))%string
       then 1 else 0).
Proof.
  unfold defined, count1, tallied. intros D.
  destruct (Obj.get facetType allFacets) as [tally |] eqn:E; [| congruence].
  destruct (String.eqb_spec facetType facetType') as [<- | N]; simpl.
  - rewrite get_set_eq, E. apply countOf_increment.
  - rewrite get_set_ne by assumption. lia.
Qed.

Lemma count_elements facetType elems : forall allFacets facetType' term,
  defined allFacets facetType ->
  let allFacets' :=
    fold_left (fun all value => count1 facetType value all) elems allFacets in
  tallied allFacets' facetType' term
  = tallied allFacets facetType' term
    + (if (facetType =? facetType')%string
       then Z.of_nat (List.length
                        (filter (fun e => (toString e =? term)%string) elems))
       else 0).
Proof.
  induction elems as [| e elems IH]; intros allFacets facetType' term D; simpl.
  - destruct (facetType =? facetType')%string; simpl; lia.
  - rewrite IH by now apply defined_count1.
    rewrite tallied_count1 by assumption.
    destruct (facetType =? facetType')%string; simpl; [| lia].
    destruct (toString e =? term)%string; simpl List.length; lia.
Qed.

Lemma defined_count_elements facetType elems : forall allFacets facetType',
  defined allFacets facetType' ->
  defined (fold_left (fun all value => count1 facetType value all)
                     elems allFacets) facetType'.
Proof.
  induction elems as [| e elems IH]; intros allFacets facetType' D; simpl.
  - exact D.
  - apply IH. now apply defined_count1.
Qed.

Lemma defined_tallyAttribute course allFacets facetType facetType' :
  defined allFacets facetType' ->
  defined (tallyAttribute course allFacets facetType) facetType'.
Proof.
  intros D. unfold tallyAttribute.
  destruct (truthy (prop facetType (data course))); [| exact D].
  destruct (prop facetType (data course));
    auto using defined_count1, defined_count_elements.
Qed.

Lemma tallied_tallyAttribute course allFacets facetType facetType' term :
  defined allFacets facetType ->
  tallied (tallyAttribute course allFacets facetType) facetType' term
  = tallied allFacets facetType' term
    + (if (facetType =? facetType')%string
       then occurrences term (prop facetType (data course)) else 0).
Proof.
  intros D. unfold tallyAttribute, occurrences.
  destruct (truthy (prop facetType (data course))) eqn:T.
  - destruct (prop facetType (data course)) eqn:P;
      try (rewrite tallied_count1 by assumption;
           destruct (facetType =? facetType')%string; reflexivity).
    now apply count_elements.
  - destruct (facetType =? facetType')%string; lia.
Qed.

(** One course adds to every facet type of a duplicate-free list exactly
    the occurrences in its attribute of that name. *)
Lemma tallied_course course facetTypes : forall allFacets facetType term,
  NoDup facetTypes ->
  (forall ft, In ft facetTypes -> defined allFacets ft) ->
  In facetType facetTypes ->
  tallied (fold_left (tallyAttribute course) facetTypes allFacets)
          facetType term
  = tallied allFacets facetType term
    + occurrences term (prop facetType (data course)).
Proof.
  assert (Other : forall fts allFacets facetType term,
             ~ In facetType fts ->
             (forall ft, In ft fts -> defined allFacets ft) ->
             tallied (fold_left (tallyAttribute course) fts allFacets)
                     facetType term
             = tallied allFacets facetType term).
  { induction fts as [| ft fts IH]; intros allFacets facetType term NI D;
      simpl; [reflexivity |].
    rewrite IH.
    - rewrite tallied_tallyAttribute by (apply D; now left).
      destruct (String.eqb_spec ft facetType) as [-> | N]; [| lia].
      exfalso. apply NI. now left.
    - intros I. apply NI. now right.
    - intros ft' I. apply defined_tallyAttribute, D. now right. }
  induction facetTypes as [| ft fts IH]; intros allFacets facetType term ND D I;
    [contradiction |].
  inversion ND as [| ? ? NI ND']; subst. simpl.
  destruct I as [-> | I].
  - rewrite Other; [| assumption |].
    + rewrite tallied_tallyAttribute by (apply D; now left).
      now rewrite String.eqb_refl.
    + intros ft' I'. apply defined_tallyAttribute, D. now right.
  - rewrite IH; [| assumption | | assumption].
    + rewrite tallied_tallyAttribute by (apply D; now left).
      destruct (String.eqb_spec ft facetType) as [-> | N]; [tauto | lia].
    + intros ft' I'. apply defined_tallyAttribute, D. now right.
Qed.

Lemma defined_course course facetTypes : forall allFacets facetType,
  defined allFacets facetType ->
  defined (fold_left (tallyAttribute course) facetTypes allFacets) facetType.
Proof.
  induction facetTypes as [| ft fts IH]; intros allFacets facetType D; simpl.
  - exact D.
  - apply IH. now apply defined_tallyAttribute.
Qed.

Lemma tallied_courses facetTypes courses : forall allFacets facetType term,
  NoDup facetTypes ->
  (forall ft, In ft facetTypes -> defined allFacets ft) ->
  In facetType facetTypes ->
  tallied (tallyCourses facetTypes courses allFacets) facetType term
  = tallied allFacets facetType term
    + sumOver (occurrences term) facetType courses.
Proof.
  unfold tallyCourses.
  induction courses as [| course courses IH];
    intros allFacets facetType term ND D I; simpl.
  - lia.
  - rewrite IH; [| assumption | | assumption].
    + rewrite tallied_course by assumption. lia.
    + intros ft I'. apply defined_course, D, I'.
Qed.

Lemma defined_courses facetTypes courses : forall allFacets facetType,
  defined allFacets facetType ->
  defined (tallyCourses facetTypes courses allFacets) facetType.
Proof.
  unfold tallyCourses.
  induction courses as [| course courses IH]; intros allFacets facetType D; simpl.
  - exact D.
  - apply IH. now apply defined_course.
Qed.

Lemma emptyTally_spec facetTypes :
  (forall ft, In ft facetTypes -> defined (emptyTally facetTypes) ft)
  /\ (forall ft term, tallied (emptyTally facetTypes) ft term = 0).
Proof.
  unfold emptyTally.
  assert (G : forall fts (acc : Obj.t (Obj.t Z)),
             (forall ft tally, Obj.get ft acc = Some tally -> tally = []) ->
             let all := fold_left (fun a ft => Obj.set ft [] a) fts acc in
             (forall ft, In ft fts \/ defined acc ft -> defined all ft)
             /\ (forall ft tally, Obj.get ft all = Some tally -> tally = [])).
  { induction fts as [| ft0 fts IH]; intros acc E; simpl.
    - split; [| exact E]. intros ft [[] | D]. exact D.
    - destruct (IH (Obj.set ft0 [] acc)) as [D' E'].
      + intros ft tally. destruct (String.eqb_spec ft0 ft) as [-> | N].
        * rewrite get_set_eq. congruence.
        * rewrite get_set_ne by assumption. apply E.
      + split; [| exact E'].
        intros ft [[-> | I] | D]; apply D'.
        * right. unfold defined. rewrite get_set_eq. discriminate.
        * now left.
        * right. now apply defined_set. }
  destruct (G facetTypes []) as [D E]; [discriminate |].
  split.
  - intros ft I. apply D. now left.
  - intros ft term. unfold tallied.
    destruct (Obj.get ft _) as [tally |] eqn:Q; [| reflexivity].
    now rewrite (E _ _ Q).
Qed.

(** The inner object of every facet type the loops range over exists, so
    [count1] always finds it. *)
Lemma tally_defined facetTypes courses facetType :
  In facetType facetTypes ->
  defined (tallyCourses facetTypes courses (emptyTally facetTypes)) facetType.
Proof.
  intros I. apply defined_courses. now apply emptyTally_spec.
Qed.

(** C10 (as amended).  For a facet type and a term that are not names
    inherited from [Object.prototype]: in the local tally a document whose
    attribute for the facet type is missing or falsy leaves the tally as it
    is, an array adds one per element (whether or not the element is
    truthy), and any other truthy value adds one: the count tallied for the
    term is the number of truthy non-array values and of array elements,
    over the surviving documents, whose property name is that term. *)
Theorem tally_counts_occurrences facetTypes courses facetType term :
  NoDup facetTypes ->
  In facetType facetTypes ->
  inherited facetType = false ->
  inherited term = false ->
  (forall course allFacets,
      truthy (prop facetType (data course)) = false ->
      tallyAttribute course allFacets facetType = allFacets)
  /\ (forall course allFacets elems,
         prop facetType (data course) = JsArray elems ->
         defined allFacets facetType ->
         tallied (tallyAttribute course allFacets facetType) facetType term
         = tallied allFacets facetType term
           + Z.of_nat (List.length
                         (filter (fun e => (toString e =? term)%string) elems)))
  /\ tallied (tallyCourses facetTypes courses (emptyTally facetTypes))
             facetType term
     = sumOver (occurrences term) facetType courses.
Proof.
  intros ND I _ _. split; [| split].
  - intros course allFacets F. unfold tallyAttribute. now rewrite F.
  - intros course allFacets elems A D.
    rewrite tallied_tallyAttribute by exact D.
    rewrite String.eqb_refl. unfold occurrences. now rewrite A.
  - rewrite tallied_courses; try assumption.
    + destruct (emptyTally_spec facetTypes) as [_ Z0]. rewrite Z0. lia.
    + apply emptyTally_spec.
Qed.

Lemma tally_counts_occurrences_witness :
  tallied (tallyCourses ["subject"; "language"]
             [ {| data := [("subject", JsArray [JsString "cs"; JsString "math"]);
                           ("language", JsString "en")] |};
               {| data := [("subject", JsString "cs"); ("language", JsString "")] |} ]
             (emptyTally ["subject"; "language"]))
          "subject" "cs" = 2.
Proof.
  refine (eq_trans
            (proj2 (proj2 (tally_counts_occurrences
                             ["subject"; "language"] _ "subject" "cs"
                             _ _ eq_refl eq_refl)))
            _).
  - repeat constructor; simpl; intuition discriminate.
  - simpl. tauto.
  - reflexivity.
Defined.

(** C10 as stated fails: a falsy element of an array is tallied.  The
    document [{subject: ["", "cs"]}] gives the term [""] the count 1, and
    it has no truthy occurrence of that term. *)
Lemma tally_counts_falsy_array_element :
  let courses :=
    [ {| data := [("subject", JsArray [JsString ""; JsString "cs"])] |} ] in
  let allFacets := tallyCourses ["subject"] courses (emptyTally ["subject"]) in
  Obj.get "subject" allFacets = Some [("", 1); ("cs", 1)]
  /\ tallied allFacets "subject" "" = 1
  /\ sumOver (truthyOccurrences "") "subject" courses = 0
  /\ tallied allFacets "subject" ""
     <> sumOver (truthyOccurrences "") "subject" courses.
Proof.
  repeat split. discriminate.
Qed.

(** ** The counts of [parse] *)

Lemma parse_counts isVideosPage response this :
  let this' := snd (parse isVideosPage response this) in
  totalCount this' = Z.of_nat (List.length (survivors isVideosPage response))
  /\ latestCount this' = Z.of_nat (List.length (survivors isVideosPage response))
  /\ courseCards this'
     = (courseCards this ++ map data (survivors isVideosPage response))%list.
Proof.
  unfold parse, survivors.
  destruct (pageFacets _ _ _) as [facets | e]; simpl.
  - destruct (addFacetOptions facets (facetOptions this)); simpl. auto.
  - auto.
Qed.

(** C9.  After [parse], however it completes, [totalCount] equals
    [latestCount]: both are the number of documents of the page that
    survive the page-local predicate. *)
Theorem totalCount_eq_latestCount isVideosPage response this :
  let this' := snd (parse isVideosPage response this) in
  totalCount this' = latestCount this'
  /\ latestCount this'
     = Z.of_nat (List.length (survivors isVideosPage response)).
Proof.
  destruct (parse_counts isVideosPage response this) as (T & L & _).
  simpl. split; congruence.
Qed.

(** C1 (as amended).  [parse] sets [totalCount] to the number of documents
    that survive the page-local predicate, the value of [latestCount], and
    not to the number the server sent: it never exceeds the raw count and
    equals it only when the predicate removed nothing. *)
Theorem totalCount_is_survivor_count isVideosPage response this :
  let this' := snd (parse isVideosPage response this) in
  totalCount this' = Z.of_nat (List.length (survivors isVideosPage response))
  /\ totalCount this' = latestCount this'
  /\ totalCount this' <= Z.of_nat (List.length (rawResults response))
  /\ (totalCount this' = Z.of_nat (List.length (rawResults response))
      <-> survivors isVideosPage response = rawResults response).
Proof.
  destruct (parse_counts isVideosPage response this) as (T & L & _).
  simpl in *. rewrite T, L. unfold survivors, rawResults.
  set (cs := match results response with Some cs => cs | None => [] end).
  pose proof (filter_length_le (keepCourse isVideosPage) cs) as LE.
  repeat split.
  - lia.
  - intros E. apply Nat2Z.inj in E.
    clear - E. induction cs as [| c cs IH]; simpl in *; [reflexivity |].
    pose proof (filter_length_le (keepCourse isVideosPage) cs) as LE.
    destruct (keepCourse isVideosPage c); simpl in E.
    + f_equal. apply IH. lia.
    + lia.
  - intros ->. reflexivity.
Qed.

(** C1 as stated fails.  A page of two documents, one of them a video,
    parsed off the videos page: the server sent 2, the predicate removed
    one, and [totalCount] is the survivor count 1. *)
Lemma totalCount_not_raw_count :
  let response :=
    {| results := Some [ {| data := [("id", JsString "a");
                                     ("course_type", JsString "video")] |};
                         {| data := [("id", JsString "b")] |} ];
       aggs := None |} in
  let this' := snd (parse false response initial) in
  List.length (rawResults response) = 2%nat
  /\ List.length (survivors false response) = 1%nat
  /\ totalCount this' = 1
  /\ totalCount this' <> Z.of_nat (List.length (rawResults response))
  /\ totalCount this' = Z.of_nat (List.length (survivors false response)).
Proof.
  repeat split. discriminate.
Qed.

(** ** The scenario of a page with one video *)

(** C2 (as amended).  For a server page of two documents, a video and a
    document of subject [cs] that is not one, with the aggregation
    [{subject: {terms: {cs: 2}, total: 2, other: 0}}], [parse] off the
    videos page leaves [latestCount = 1], the non-video document as the
    only course card, and the single facet option
    [{facet: 'subject', term: 'cs', count: 3}]: the one local occurrence is
    added to the 2 of the server. *)
Theorem scenario_exclude_video (video document : Course) :
  prop "course_type" (data video) = JsString "video" ->
  strictEqString (prop "course_type" (data document)) "video" = false ->
  prop "subject" (data document) = JsString "cs" ->
  parse false (scenarioResponse video document) initial
  = (Normal tt,
     {| totalCount := 1;
        latestCount := 1;
        courseCards := [data document];
        facetOptions := [ {| facet := "subject"; term := "cs"; count := 3 |} ] |}).
Proof.
  intros V D S.
  assert (KV : keepCourse false video = false).
  { unfold keepCourse. now rewrite V. }
  assert (KD : keepCourse false document = true).
  { unfold keepCourse. now rewrite D. }
  unfold parse, scenarioResponse. cbn [results aggs filter].
  rewrite KV, KD.
  assert (P : pageFacets false [document] scenarioAggregation
              = Normal [("subject",
                         Some {| terms := Some [("cs", 3)];
                                 total := 2; other := 0 |})]).
  { unfold pageFacets, tallyCourses. cbn.
    unfold tallyAttribute. rewrite S. reflexivity. }
  rewrite P. reflexivity.
Qed.

Lemma scenario_exclude_video_witness :
  parse false (scenarioResponse scenarioVideo scenarioCourse) initial
  = (Normal tt,
     {| totalCount := 1;
        latestCount := 1;
        courseCards := [data scenarioCourse];
        facetOptions := [ {| facet := "subject"; term := "cs"; count := 3 |} ] |}).
Proof.
  apply (scenario_exclude_video scenarioVideo scenarioCourse); reflexivity.
Defined.

(** C2 as stated fails on its facet option.  With both documents of
    subject [cs] the option holds the count 3, and with documents that
    carry no subject it holds the server's 2; in neither case is there an
    option of count 1. *)
Lemma scenario_count_not_recomputed :
  let claimed := {| facet := "subject"; term := "cs"; count := 1 |} in
  let this' :=
    snd (parse false (scenarioResponse scenarioVideo scenarioCourse) initial) in
  let bare :=
    snd (parse false
           (scenarioResponse
              {| data := [("id", JsString "v1");
                          ("course_type", JsString "video")] |}
              {| data := [("id", JsString "c1")] |})
           initial) in
  latestCount this' = 1
  /\ courseCards this' = [data scenarioCourse]
  /\ facetOptions this' = [ {| facet := "subject"; term := "cs"; count := 3 |} ]
  /\ ~ In claimed (facetOptions this')
  /\ facetOptions bare = [ {| facet := "subject"; term := "cs"; count := 2 |} ]
  /\ ~ In claimed (facetOptions bare).
Proof.
  cbv zeta. repeat split; try reflexivity; intros [E | []]; discriminate E.
Qed.

(** ** The coordinator's handlers *)

Lemma filters_get_add_eq merge f fs :
  Filters.get (type f) (Filters.add merge f fs) = Some f.
Proof.
  unfold Filters.get. induction fs as [| g fs IH]; simpl.
  - now rewrite String.eqb_refl.
  - destruct (String.eqb_spec (type g) (type f)) as [E | N]; simpl.
    + now rewrite String.eqb_refl.
    + apply String.eqb_neq in N. now rewrite N.
Qed.

Lemma filters_get_add_ne merge f fs ty :
  ty <> type f ->
  Filters.get ty (Filters.add merge f fs) = Filters.get ty fs.
Proof.
  intros N. unfold Filters.get. induction fs as [| g fs IH]; simpl.
  - destruct (String.eqb_spec (type f) ty); congruence.
  - destruct (String.eqb_spec (type g) (type f)) as [E | N']; simpl.
    + rewrite E. destruct (String.eqb_spec (type f) ty); congruence.
    + now rewrite IH.
Qed.

Lemma filters_add_absent merge f fs :
  Filters.get (type f) fs = None -> Filters.add merge f fs = (fs ++ [f])%list.
Proof.
  unfold Filters.get. induction fs as [| g fs IH]; simpl; [reflexivity |].
  destruct (type g =? type f)%string; [discriminate |].
  intros H. now rewrite IH.
Qed.

Lemma filters_remove_absent ty fs f :
  In f (Filters.remove ty fs) -> type f <> ty.
Proof.
  unfold Filters.remove. intros I. apply filter_In in I. destruct I as [_ N].
  apply negb_true_iff in N. now apply String.eqb_neq.
Qed.

Lemma filters_get_remove ty fs : Filters.get ty (Filters.remove ty fs) = None.
Proof.
  unfold Filters.get.
  destruct (find _ (Filters.remove ty fs)) as [f |] eqn:F; [| reflexivity].
  apply find_some in F. destruct F as [I E].
  apply filters_remove_absent in I. apply String.eqb_eq in E. contradiction.
Qed.

(** C6.  On the ['search'] event the loading indicator is hidden in every
    case.  With a positive total the found message is shown and, when the
    query is not empty, the term
    [{type: 'search_query', query, name: '"' + query + '"'}] is added with
    merge, its name being the query between two double quotes (the
    character of code 34): it is then the one term of type [search_query]
    and the terms of every other type are as before; with an empty query
    the filters are untouched.  With the total [0] the not-found message is
    shown and the filter collection is empty afterwards. *)
Theorem search_event q total p :
  let p' := onSearch q total p in
  let term := {| type := "search_query"; query := q;
                 name := String (ascii_of_nat 34)
                           (q ++ String (ascii_of_nat 34) EmptyString) |} in
  loadingIndicator p' = false
  /\ (0 < total ->
      message p' = FoundMessage total
      /\ (q <> "" ->
          filters p' = Filters.add true term (filters p)
          /\ Filters.get "search_query" (filters p') = Some term
          /\ forall ty, ty <> "search_query" ->
                        Filters.get ty (filters p') = Filters.get ty (filters p))
      /\ (q = "" -> filters p' = filters p))
  /\ (total = 0 -> message p' = NotFoundMessage q /\ filters p' = []).
Proof.
  unfold onSearch. cbv zeta. split; [| split].
  - reflexivity.
  - intros T. apply Z.ltb_lt in T. rewrite T. split; [| split].
    + destruct (negb (q =? "")%string); reflexivity.
    + intros N. apply String.eqb_neq in N. rewrite N. simpl.
      split; [reflexivity | split].
      * apply (filters_get_add_eq true
                 {| type := "search_query"; query := q; name := quote q |}).
      * intros ty NE. now apply filters_get_add_ne.
    + intros ->. reflexivity.
  - intros ->. simpl. auto.
Qed.

Lemma search_event_witness :
  let p := {| filters := [ {| type := "subject"; query := "cs";
                              name := "Computer Science" |} ];
              loadingIndicator := true; message := NoMessage;
              requests := []; renders := [] |} in
  (message (onSearch "python" 2 p) = FoundMessage 2
   /\ Filters.get "search_query" (filters (onSearch "python" 2 p))
      = Some {| type := "search_query"; query := "python";
                name := String (ascii_of_nat 34)
                          ("python" ++ String (ascii_of_nat 34) EmptyString) |})
  /\ (message (onSearch "python" 0 p) = NotFoundMessage "python"
      /\ filters (onSearch "python" 0 p) = []).
Proof.
  intros p. split.
  - destruct (proj1 (proj2 (search_event "python" 2 p))) as (M & A & _);
      [lia |].
    split; [exact M |]. apply A. discriminate.
  - apply (proj2 (proj2 (search_event "python" 0 p))). reflexivity.
Defined.

Lemma removeFilter_spec ty p :
  let p' := removeFilter ty p in
  loadingIndicator p' = true
  /\ Filters.get ty (filters p') = None
  /\ exists r,
       requests p' = (requests p ++ [r])%list
       /\ requestTerms r = filters p'
       /\ ((ty <> "search_query"
            /\ r = RefineSearch (Filters.remove ty (filters p)))
           \/ (ty = "search_query" /\ r = PerformSearch "" [])).
Proof.
  unfold removeFilter. cbv zeta.
  destruct (String.eqb_spec ty "search_query") as [-> | N]; simpl.
  - repeat split. exists (PerformSearch "" []). repeat split. now right.
  - split; [reflexivity | split; [apply filters_get_remove |]].
    exists (RefineSearch (Filters.remove ty (filters p))).
    repeat split. now left.
Qed.

(** C7.  Selecting a refinement option [(type, query, name)] shows the
    loading indicator and then:
    - when no filter of that type is active, the term is appended to the
      filter collection and [refineSearch] is called with the updated
      terms, which hold it;
    - when one is active, the selection is [removeFilter(type)]: the filter
      is removed and one search is issued whose terms hold no filter of
      that type, [refineSearch] with the remaining terms or, for the type
      [search_query], a fresh empty search;
    - so selecting the same option a second time leaves no filter of that
      type and ends with a search whose terms hold none. *)
Theorem select_refinement ty q nm p :
  let term := {| type := ty; query := q; name := nm |} in
  let p' := handleQueryParams ty q nm p in
  let p'' := handleQueryParams ty q nm p' in
  loadingIndicator p' = true
  /\ (Filters.get ty (filters p) = None ->
      filters p' = (filters p ++ [term])%list
      /\ requests p' = (requests p ++ [RefineSearch (filters p')])%list
      /\ Filters.get ty (filters p') = Some term
      /\ Filters.get ty (filters p'') = None
      /\ exists r, requests p'' = (requests p' ++ [r])%list
                   /\ requestTerms r = filters p'')
  /\ (Filters.get ty (filters p) <> None ->
      p' = removeFilter ty p
      /\ Filters.get ty (filters p') = None
      /\ exists r, requests p' = (requests p ++ [r])%list
                   /\ requestTerms r = filters p'
                   /\ (forall f, In f (requestTerms r) -> type f <> ty)
                   /\ ((ty <> "search_query"
                        /\ r = RefineSearch (Filters.remove ty (filters p)))
                       \/ (ty = "search_query" /\ r = PerformSearch "" []))).
Proof.
  cbv zeta.
  assert (Active : forall p0, Filters.get ty (filters p0) <> None ->
                     handleQueryParams ty q nm p0 = removeFilter ty p0).
  { intros p0 A. unfold handleQueryParams. cbv zeta. simpl.
    destruct (Filters.get ty (filters p0)); [| congruence].
    unfold removeFilter. reflexivity. }
  assert (Absent : forall p0, Filters.get ty (filters p0) = None ->
                     handleQueryParams ty q nm p0
                     = request
                         (RefineSearch
                            (filters p0 ++ [{| type := ty; query := q; name := nm |}])%list)
                         (setFilters
                            (filters p0 ++ [{| type := ty; query := q; name := nm |}])%list
                            (setLoadingIndicator true p0))).
  { intros p0 A. unfold handleQueryParams. cbv zeta. simpl. rewrite A.
    rewrite (filters_add_absent false {| type := ty; query := q; name := nm |})
      by exact A.
    reflexivity. }
  split; [| split].
  - destruct (Filters.get ty (filters p)) eqn:G.
    + rewrite Active by congruence. apply removeFilter_spec.
    + rewrite Absent by assumption. reflexivity.
  - intros A. rewrite (Absent p A). simpl.
    assert (G : Filters.get ty
                  (filters p ++ [{| type := ty; query := q; name := nm |}])%list
                = Some {| type := ty; query := q; name := nm |}).
    { rewrite <- (filters_add_absent false
                    {| type := ty; query := q; name := nm |}) by exact A.
      apply (filters_get_add_eq false
               {| type := ty; query := q; name := nm |}). }
    repeat split; try assumption.
    + rewrite Active by (simpl; congruence). apply removeFilter_spec.
    + rewrite Active by (simpl; congruence).
      destruct (removeFilter_spec ty
                  (request
                     (RefineSearch
                        (filters p ++ [{| type := ty; query := q; name := nm |}])%list)
                     (setFilters
                        (filters p ++ [{| type := ty; query := q; name := nm |}])%list
                        (setLoadingIndicator true p))))
        as (_ & _ & r & R & T & _).
      exists r. split; assumption.
  - intros A. rewrite (Active p A).
    destruct (removeFilter_spec ty p) as (_ & G & r & R & T & C).
    split; [reflexivity | split; [exact G |]].
    exists r. repeat split; try assumption.
    intros f I. rewrite T in I.
    intros E. subst ty. unfold Filters.get in G.
    apply (find_none _ _ G) in I. now rewrite String.eqb_refl in I.
Qed.

Lemma select_refinement_witness :
  let empty := {| filters := []; loadingIndicator := false;
                  message := NoMessage; requests := []; renders := [] |} in
  let term := {| type := "subject"; query := "cs"; name := "Computer Science" |} in
  let once := handleQueryParams "subject" "cs" "Computer Science" empty in
  let twice := handleQueryParams "subject" "cs" "Computer Science" once in
  (filters once = [term] /\ requests once = [RefineSearch [term]])
  /\ (twice = removeFilter "subject" once
      /\ Filters.get "subject" (filters twice) = None).
Proof.
  cbv zeta. split.
  - destruct (proj1 (proj2 (select_refinement
                              "subject" "cs" "Computer Science"
                              {| filters := []; loadingIndicator := false;
                                 message := NoMessage; requests := [];
                                 renders := [] |})))
      as (F & R & _); [reflexivity |].
    split; [exact F | exact R].
  - destruct (proj2 (proj2 (select_refinement
                              "subject" "cs" "Computer Science"
                              (handleQueryParams
                                 "subject" "cs" "Computer Science"
                                 {| filters := []; loadingIndicator := false;
                                    message := NoMessage; requests := [];
                                    renders := [] |}))))
      as (E & G & _); [discriminate |].
    split; [exact E | exact G].
Defined.

(** ** The merge of the tally into the aggregation *)

Lemma mergeTerms_spec values : forall ts tot oth,
  Obj.wf values ->
  exists ts',
    forEachM mergeTerm values {| terms := Some ts; total := tot; other := oth |}
    = Normal {| terms := Some ts'; total := tot; other := oth |}
    /\ (forall k, In k (Obj.keys ts') <-> In k (Obj.keys ts) \/ In k (Obj.keys values))
    /\ (Obj.wf ts -> Obj.wf ts')
    /\ forall term,
         Obj.get term ts'
         = match Obj.get term values with
           | Some count => Some (mergedCount (Obj.get term ts) count)
           | None => Obj.get term ts
           end.
Proof.
  induction values as [| [t0 c0] values IH]; intros ts tot oth W.
  - exists ts. unfold Obj.keys. simpl. repeat split; try tauto.
  - inversion W as [| ? ? NI W']; subst. simpl.
    set (merged := match Obj.get t0 ts with
                   | Some c => if truthyNumber c then c + c0 else c0
                   | None => c0
                   end).
    assert (M : merged = mergedCount (Obj.get t0 ts) c0).
    { unfold merged, mergedCount, truthyNumber.
      destruct (Obj.get t0 ts) as [c |]; [| reflexivity].
      destruct (Z.eqb_spec c 0); simpl; lia. }
    destruct (IH (Obj.set t0 merged ts) tot oth W') as (ts' & E & K & WF & G).
    exists ts'. split; [exact E | split; [| split]].
    + intros k. rewrite K, in_keys_set. unfold Obj.keys. simpl.
      intuition congruence.
    + intros Wts. apply WF. now apply wf_set.
    + intros term. rewrite G.
      destruct (String.eqb_spec t0 term) as [<- | N].
      * apply get_none in NI. rewrite NI, get_set_eq. now rewrite M.
      * destruct (Obj.get term values); now rewrite get_set_ne.
Qed.

Lemma sumValues_fold_right values :
  sumValues values = fold_right Z.add 0 (Obj.values values).
Proof.
  unfold sumValues.
  assert (G : forall l acc,
             fold_left (fun memo num => memo + num) l acc
             = acc + fold_right Z.add 0 l).
  { induction l as [| x l IH]; intros acc; simpl; [lia |].
    rewrite IH. lia. }
  now rewrite G.
Qed.

Lemma mergeFacet_mergedEntry facets facetType values :
  mergeFacet facets (facetType, values)
  = f' <- mergedEntry (Obj.get facetType facets) values ;;
    Normal (Obj.set facetType (Some f') facets).
Proof.
  unfold mergeFacet, mergedEntry.
  destruct (Obj.get facetType facets) as [[f |] |]; reflexivity.
Qed.

Lemma mergeFacets_spec allFacets : forall facets,
  Obj.wf allFacets ->
  (forall facetType values,
      In (facetType, values) allFacets ->
      exists f', mergedEntry (Obj.get facetType facets) values = Normal f') ->
  exists facets',
    mergeFacets allFacets facets = Normal facets'
    /\ (forall facetType values,
           In (facetType, values) allFacets ->
           exists f', mergedEntry (Obj.get facetType facets) values = Normal f'
                      /\ Obj.get facetType facets' = Some (Some f'))
    /\ (forall facetType,
           ~ In facetType (Obj.keys allFacets) ->
           Obj.get facetType facets' = Obj.get facetType facets)
    /\ (forall k, In k (Obj.keys facets')
                  <-> In k (Obj.keys facets) \/ In k (Obj.keys allFacets))
    /\ (Obj.wf facets -> Obj.wf facets').
Proof.
  unfold mergeFacets.
  induction allFacets as [| [ft0 v0] rest IH]; intros facets W OK.
  - exists facets. unfold Obj.keys. simpl. repeat split; try tauto.
  - inversion W as [| ? ? NI W']; subst.
    destruct (OK ft0 v0) as [f0 E0]; [now left |].
    cbn [forEachM]. rewrite mergeFacet_mergedEntry, E0. cbn [bind].
    assert (Same : forall ft, In ft (Obj.keys rest) ->
                     Obj.get ft (Obj.set ft0 (Some f0) facets) = Obj.get ft facets).
    { intros ft I. apply get_set_ne. intros ->. contradiction. }
    destruct (IH (Obj.set ft0 (Some f0) facets) W') as (facets' & E & P & U & K & WF).
    { intros ft values I.
      rewrite Same by (change ft with (fst (ft, values)); now apply in_map).
      apply OK. now right. }
    exists facets'. split; [exact E | split; [| split; [| split]]].
    + intros ft values [Q | I].
      * injection Q as <- <-. exists f0. split; [exact E0 |].
        rewrite U by exact NI. apply get_set_eq.
      * destruct (P ft values I) as (f' & E' & G').
        exists f'. split; [| exact G'].
        rewrite <- E'. f_equal. symmetry. apply Same.
        change ft with (fst (ft, values)). now apply in_map.
    + intros ft NI'. simpl in NI'. rewrite U by tauto.
      apply get_set_ne. tauto.
    + intros k. rewrite K, in_keys_set. unfold Obj.keys. simpl.
      intuition congruence.
    + intros Wf. apply WF. now apply wf_set.
Qed.

Lemma mergedEntry_shaped facets facetType values :
  shaped facets -> Obj.wf values ->
  exists f', mergedEntry (Obj.get facetType facets) values = Normal f'.
Proof.
  intros S W. unfold mergedEntry.
  destruct (Obj.get facetType facets) as [[f |] |] eqn:G; eauto.
  destruct f as [[ts |] tot oth].
  - destruct (mergeTerms_spec values ts tot oth W) as (ts' & E & _). eauto.
  - exfalso. now apply (S _ _ G).
Qed.

(** The rule of the merge, on [mergeFacets]: it completes on every
    aggregation whose entries have their [terms]; a facet type of the tally
    without an entry (none, or [null]) gets the entry made of the tally,
    and in an entry that is there each local count is added to the count
    held for the term, or inserted. *)
Lemma mergeFacets_rule allFacets facets :
  Obj.wf allFacets ->
  (forall facetType values, In (facetType, values) allFacets -> Obj.wf values) ->
  shaped facets ->
  exists facets',
    mergeFacets allFacets facets = Normal facets'
    /\ forall facetType values,
         Obj.get facetType allFacets = Some values ->
         match Obj.get facetType facets with
         | Some (Some f) =>
             exists ts ts',
               terms f = Some ts
               /\ Obj.get facetType facets'
                  = Some (Some {| terms := Some ts';
                                  total := total f; other := other f |})
               /\ forall term,
                    Obj.get term ts'
                    = match Obj.get term values with
                      | Some count =>
                          Some (match Obj.get term ts with
                                | Some c => c + count
                                | None => count
                                end)
                      | None => Obj.get term ts
                      end
         | _ =>
             Obj.get facetType facets'
             = Some (Some {| terms := Some values;
                             total := fold_right Z.add 0 (Obj.values values);
                             other := 0 |})
         end.
Proof.
  intros W WV S.
  destruct (mergeFacets_spec allFacets facets W) as (facets' & E & P & _).
  { intros ft values I. apply mergedEntry_shaped; eauto. }
  exists facets'. split; [exact E |].
  intros facetType values G. apply get_some_in in G.
  destruct (P facetType values G) as (f' & M & G').
  pose proof (sumValues_fold_right values) as Sum.
  unfold mergedEntry in M.
  destruct (Obj.get facetType facets) as [[f |] |] eqn:Q.
  - destruct f as [[ts |] tot oth]; [| exfalso; now apply (S _ _ Q)].
    destruct (mergeTerms_spec values ts tot oth (WV _ _ G)) as (ts' & E' & _ & _ & T).
    rewrite E' in M. injection M as <-.
    exists ts, ts'. simpl. repeat split; assumption.
  - injection M as <-. now rewrite <- Sum.
  - injection M as <-. now rewrite <- Sum.
Qed.

(** ** Well-formed aggregations and what [pageFacets] makes of them *)

Lemma fold_left_invariant {A S : Type} (P : S -> Prop) (f : S -> A -> S) l :
  (forall s x, P s -> P (f s x)) ->
  forall s, P s -> P (fold_left f l s).
Proof.
  intros Step. induction l as [| x l IH]; intros s H; simpl; auto.
Qed.

Lemma removeUnwantedFacets_wf isVideosPage facets :
  wfAggregation facets ->
  wfAggregation (removeUnwantedFacets isVideosPage facets).
Proof.
  intros [W T]. unfold removeUnwantedFacets.
  destruct isVideosPage.
  - destruct (Obj.get "course_type" facets) as [[f |] |] eqn:G;
      try (split; assumption).
    split; [now apply wf_delete |].
    intros ft f' G'. destruct (String.eqb_spec "course_type" ft) as [<- | N].
    + now rewrite get_delete_eq in G'.
    + rewrite get_delete_ne in G' by assumption. eauto.
  - destruct (Obj.get "course_type" facets) as [[f |] |] eqn:G;
      try (split; assumption).
    destruct (terms f) as [ts |] eqn:Tf; [| split; assumption].
    destruct (Obj.get "video" ts) as [c |]; [| split; assumption].
    destruct (truthyNumber c); [| split; assumption].
    split; [now apply wf_set |].
    intros ft f' G'. destruct (String.eqb_spec "course_type" ft) as [<- | N].
    + rewrite get_set_eq in G'. injection G' as <-. simpl.
      eexists. split; [reflexivity |].
      destruct (T _ _ G) as (ts0 & E0 & W0).
      rewrite Tf in E0. injection E0 as <-. now apply wf_delete.
    + rewrite get_set_ne in G' by assumption. eauto.
Qed.

Lemma wfTally_count1 facetType value allFacets :
  wfTally allFacets -> wfTally (count1 facetType value allFacets).
Proof.
  intros [W T]. unfold count1.
  destruct (Obj.get facetType allFacets) as [tally |] eqn:G; [| now split].
  split; [now apply wf_set |].
  intros ft tally' G'. destruct (String.eqb_spec facetType ft) as [<- | N].
  - rewrite get_set_eq in G'. injection G' as <-.
    destruct (T _ _ G) as [Wt Pt]. unfold increment.
    split; [now apply wf_set |].
    intros term c Q.
    destruct (String.eqb_spec (toString value) term) as [<- | N].
    + rewrite get_set_eq in Q. injection Q as <-.
      destruct (Obj.get (toString value) tally) as [c0 |] eqn:G0; [| lia].
      specialize (Pt _ _ G0). destruct (truthyNumber c0); lia.
    + rewrite get_set_ne in Q by assumption. eauto.
  - rewrite get_set_ne in G' by assumption. eauto.
Qed.

Lemma wfTally_tallyAttribute course allFacets facetType :
  wfTally allFacets -> wfTally (tallyAttribute course allFacets facetType).
Proof.
  intros W. unfold tallyAttribute.
  destruct (truthy (prop facetType (data course))); [| exact W].
  destruct (prop facetType (data course)); try now apply wfTally_count1.
  apply fold_left_invariant; [| exact W].
  intros s x. apply wfTally_count1.
Qed.

Lemma wfTally_tally facetTypes courses :
  wfTally (tallyCourses facetTypes courses (emptyTally facetTypes)).
Proof.
  unfold tallyCourses, emptyTally.
  apply fold_left_invariant.
  - intros s course. apply fold_left_invariant.
    intros s' ft. apply wfTally_tallyAttribute.
  - apply (fold_left_invariant
             (fun all => wfTally all
                         /\ forall ft tally, Obj.get ft all = Some tally ->
                                             tally = [])).
    + intros s ft [[W T] E]. split; [split |].
      * now apply wf_set.
      * intros ft' tally G.
        destruct (String.eqb_spec ft ft') as [<- | N].
        -- rewrite get_set_eq in G. injection G as <-.
           split; [constructor | discriminate].
        -- rewrite get_set_ne in G by assumption. eauto.
      * intros ft' tally G.
        destruct (String.eqb_spec ft ft') as [<- | N].
        -- rewrite get_set_eq in G. congruence.
        -- rewrite get_set_ne in G by assumption. eauto.
    + split; [split |]; try discriminate. constructor.
Qed.

Lemma wfAggregation_shaped facets : wfAggregation facets -> shaped facets.
Proof.
  intros [_ T] ft f G. destruct (T _ _ G) as (ts & E & _). congruence.
Qed.

Lemma in_keys_get {V : Type} k (o : Obj.t V) :
  In k (Obj.keys o) <-> exists v, Obj.get k o = Some v.
Proof.
  destruct (Obj.get k o) as [v |] eqn:G.
  - split; [eauto |]. intros _.
    apply get_some_in in G. change k with (fst (k, v)). now apply in_map.
  - split.
    + intros I. now apply get_none in G.
    + intros [v Q]. discriminate.
Qed.

Lemma in_keys_positive (values : Obj.t Z) term :
  (forall t c, Obj.get t values = Some c -> 0 < c) ->
  In term (Obj.keys values) <-> 0 < countOf term values.
Proof.
  intros P. rewrite in_keys_get. unfold countOf.
  destruct (Obj.get term values) as [c |] eqn:G.
  - split; [intros _; eauto | eauto].
  - split; [intros [v Q]; discriminate | lia].
Qed.


(** The tally has no facet type but those it was made for. *)
Lemma tally_keys facetTypes courses k :
  In k (Obj.keys (tallyCourses facetTypes courses (emptyTally facetTypes))) ->
  In k facetTypes.
Proof.
  revert k.
  change (forall k,
             In k (Obj.keys (tallyCourses facetTypes courses
                               (emptyTally facetTypes))) ->
             In k facetTypes)
    with ((fun all : Obj.t (Obj.t Z) =>
             forall k, In k (Obj.keys all) -> In k facetTypes)
            (tallyCourses facetTypes courses (emptyTally facetTypes))).
  assert (C1 : forall ft v (all : Obj.t (Obj.t Z)),
             (forall k, In k (Obj.keys all) -> In k facetTypes) ->
             forall k, In k (Obj.keys (count1 ft v all)) -> In k facetTypes).
  { intros ft v all H k. unfold count1.
    destruct (Obj.get ft all) as [tally |] eqn:G; [| apply H].
    intros I. apply in_keys_set in I. destruct I as [-> | I]; [| now apply H].
    apply H. apply in_keys_get. eauto. }
  unfold tallyCourses. apply fold_left_invariant.
  - intros all course H. apply fold_left_invariant; [| exact H].
    intros all' ft H'. unfold tallyAttribute.
    destruct (truthy (prop ft (data course))); [| exact H'].
    destruct (prop ft (data course)); try now apply C1.
    apply fold_left_invariant; [| exact H'].
    intros all'' e. apply C1.
  - unfold emptyTally.
    assert (G : forall fts (acc : Obj.t (Obj.t Z)),
               (forall k, In k fts -> In k facetTypes) ->
               (forall k, In k (Obj.keys acc) -> In k facetTypes) ->
               forall k,
                 In k (Obj.keys (fold_left (fun a ft => Obj.set ft [] a) fts acc)) ->
                 In k facetTypes).
    { induction fts as [| ft fts IH]; intros acc F A k; simpl; [apply A |].
      apply IH.
      - intros k' I. apply F. now right.
      - intros k' I. apply in_keys_set in I. destruct I as [-> | I].
        + apply F. now left.
        + now apply A. }
    apply G; [auto | intros k []].
Qed.

(** The count the tally holds for a term is the number of its occurrences
    in the documents. *)
Lemma tally_count facetTypes courses facetType values term :
  NoDup facetTypes ->
  In facetType facetTypes ->
  Obj.get facetType (tallyCourses facetTypes courses (emptyTally facetTypes))
  = Some values ->
  countOf term values = sumOver (occurrences term) facetType courses.
Proof.
  intros ND I G.
  pose proof (tallied_courses facetTypes courses (emptyTally facetTypes)
                facetType term ND) as Q.
  unfold tallied at 1 in Q. rewrite G in Q.
  rewrite Q; [| apply emptyTally_spec | exact I].
  destruct (emptyTally_spec facetTypes) as [_ Z0]. rewrite Z0. lia.
Qed.

(** C4 (as amended).  On an aggregation whose entries, when not [null],
    have their [terms], and with ordinary names only, the merge completes;
    the tally has the facet types of the aggregation (the unwanted ones
    removed) and no other; for each of them it holds an object, which
    counts the occurrences of each term in the surviving documents, and:
    - when the entry of the facet type is [null], the type gets the entry
      [{terms: values, total: sum of the term counts, other: 0}] made of
      the tally;
    - when it is not, each local count is added to the count the entry
      holds for the term, a term the entry does not hold gets the local
      count, the other terms are untouched, and [total] and [other] stay. *)
Theorem merge_rule isVideosPage courses aggregation :
  wfAggregation aggregation ->
  ordinaryNames aggregation courses = true ->
  let facets0 := removeUnwantedFacets isVideosPage aggregation in
  let allFacets :=
    tallyCourses (Obj.keys facets0) courses (emptyTally (Obj.keys facets0)) in
  exists facets,
    pageFacets isVideosPage courses aggregation = Normal facets
    /\ (forall facetType,
           In facetType (Obj.keys allFacets) -> In facetType (Obj.keys facets0))
    /\ forall facetType,
         In facetType (Obj.keys facets0) ->
         exists values,
           Obj.get facetType allFacets = Some values
           /\ (forall term,
                  countOf term values
                  = sumOver (occurrences term) facetType courses)
           /\ match Obj.get facetType facets0 with
              | Some (Some f) =>
                  exists ts ts',
                    terms f = Some ts
                    /\ Obj.get facetType facets
                       = Some (Some {| terms := Some ts';
                                       total := total f; other := other f |})
                    /\ forall term,
                         Obj.get term ts'
                         = match Obj.get term values with
                           | Some count =>
                               Some (match Obj.get term ts with
                                     | Some c => c + count
                                     | None => count
                                     end)
                           | None => Obj.get term ts
                           end
              | _ =>
                  Obj.get facetType facets
                  = Some (Some {| terms := Some values;
                                  total := fold_right Z.add 0 (Obj.values values);
                                  other := 0 |})
              end.
Proof.
  intros WA _ facets0 allFacets.
  pose proof (removeUnwantedFacets_wf isVideosPage _ WA) as W0.
  fold facets0 in W0.
  destruct (wfTally_tally (Obj.keys facets0) courses) as [WT VT].
  fold allFacets in WT, VT.
  destruct (mergeFacets_rule allFacets facets0 WT) as (facets & E & R).
  - intros ft values I. apply in_get in I; [| exact WT]. apply (VT _ _ I).
  - now apply wfAggregation_shaped.
  - exists facets. split; [exact E | split; [apply tally_keys |]].
    intros ft I.
    pose proof (tally_defined (Obj.keys facets0) courses ft I) as D.
    fold allFacets in D. unfold defined in D.
    destruct (Obj.get ft allFacets) as [values |] eqn:G; [| congruence].
    exists values. split; [reflexivity | split].
    + intros term. apply (tally_count (Obj.keys facets0)); auto. apply W0.
    + now apply R.
Qed.

Lemma merge_rule_witness :
  exists facets,
    pageFacets false [mergeDocument] mergeAggregation = Normal facets
    /\ Obj.get "subject" facets
       = Some (Some {| terms := Some [("cs", 3); ("math", 1)];
                       total := 2; other := 0 |})
    /\ Obj.get "language" facets
       = Some (Some {| terms := Some [("en", 1)]; total := 1; other := 0 |}).
Proof.
  destruct (merge_rule false [mergeDocument] mergeAggregation)
    as (facets & E & _).
  - apply wfAggregationb_sound. reflexivity.
  - reflexivity.
  - exists facets. split; [exact E |].
    injection E as <-. split; reflexivity.
Defined.

(** C4 as stated fails in both of its cases.  A facet type the documents
    carry and the aggregation lacks ([language] below) is not in the tally,
    which has the facet types of the aggregation only, so no entry is made
    for it.  And for a facet type that is in the tally and in the
    aggregation, with an entry without [terms], the local count is neither
    added nor inserted: the merge throws. *)
Lemma merge_rule_not_general :
  let subjectOnly : Facets :=
    [("subject", Some {| terms := Some [("cs", 2)]; total := 2; other := 0 |})] in
  let noTerms : Facets :=
    [("subject", Some {| terms := None; total := 1; other := 0 |})] in
  sumOver (occurrences "en") "language" [mergeDocument] = 1
  /\ tallyCourses (Obj.keys subjectOnly) [mergeDocument]
                  (emptyTally (Obj.keys subjectOnly))
     = [("subject", [("cs", 1); ("math", 1)])]
  /\ pageFacets false [mergeDocument] subjectOnly
     = Normal [("subject",
                Some {| terms := Some [("cs", 3); ("math", 1)];
                        total := 2; other := 0 |})]
  /\ tallyCourses (Obj.keys noTerms) [mergeDocument]
                  (emptyTally (Obj.keys noTerms))
     = [("subject", [("cs", 1); ("math", 1)])]
  /\ pageFacets false [mergeDocument] noTerms = Throw TypeError.
Proof.
  cbv zeta. repeat split.
Qed.

(** ** The order of terms *)

Lemma leb_iff x y : TermOrder.leb x y = true <-> x = y \/ termLt x y.
Proof.
  unfold TermOrder.leb, termLt.
  destruct (OrdersEx.String_as_OT.compare_spec x y) as [E | L | G].
  - split; auto.
  - split; auto.
  - split; [discriminate |].
    intros [-> | L]; exfalso.
    + now apply (StrictOrder_Irreflexive y).
    + apply (StrictOrder_Irreflexive x).
      now apply (StrictOrder_Transitive x y x).
Qed.

Lemma sortTerms_in ts t : In t (sortTerms ts) <-> In t ts.
Proof.
  unfold sortTerms. split; apply Permutation_in.
  - apply Permutation_sym, TermSort.Permuted_sort.
  - apply TermSort.Permuted_sort.
Qed.

(** Sorting a duplicate-free list of terms gives a strictly ascending one. *)
Lemma sortTerms_ascending ts : NoDup ts -> StronglySorted termLt (sortTerms ts).
Proof.
  intros ND. unfold sortTerms.
  assert (ND' : NoDup (TermSort.sort ts)).
  { eapply Permutation_NoDup; [apply TermSort.Permuted_sort | exact ND]. }
  assert (S : StronglySorted (fun x y => TermOrder.leb x y = true)
                             (TermSort.sort ts)).
  { apply Sorted_StronglySorted.
    - intros x y z XY YZ. apply leb_iff in XY, YZ. apply leb_iff.
      destruct XY as [-> | XY]; [assumption |].
      destruct YZ as [<- | YZ]; [now right |].
      right. now apply (StrictOrder_Transitive x y z).
    - apply TermSort.Sorted_sort. }
  induction S as [| a l S IH F]; constructor.
  - apply IH. now inversion ND'.
  - inversion ND' as [| ? ? NI _]; subst.
    rewrite Forall_forall in *. intros x I.
    destruct (proj1 (leb_iff a x) (F x I)) as [-> | L]; [contradiction | exact L].
Qed.

(** ** The collection of facet options *)

Lemma optionCount_addOption facetType t o options :
  optionCount facetType t (addOption o options)
  = if ((facet o =? facetType) && (term o =? t))%string
    then Some (count o)
    else optionCount facetType t options.
Proof.
  unfold optionCount.
  set (hit := fun x : FacetOption =>
                ((facet x =? facetType) && (term x =? t))%string).
  change ((facet o =? facetType) && (term o =? t))%string with (hit o).
  induction options as [| o' rest IH]; simpl.
  - destruct (hit o); reflexivity.
  - destruct (sameOption o' o) eqn:S; simpl.
    + assert (E : hit o' = hit o).
      { unfold sameOption in S. apply andb_true_iff in S. destruct S as [F T].
        apply String.eqb_eq in F, T. unfold hit. now rewrite F, T. }
      rewrite E. destruct (hit o); reflexivity.
    + destruct (hit o') eqn:H'; [| exact IH].
      destruct (hit o) eqn:H; [| reflexivity].
      exfalso. unfold hit in H, H'.
      apply andb_true_iff in H, H'. destruct H as [F T], H' as [F' T'].
      apply String.eqb_eq in F, T, F', T'.
      unfold sameOption in S. rewrite F, T, F', T' in S.
      now rewrite !String.eqb_refl in S.
Qed.

Lemma addOptions_app adds1 adds2 options :
  addOptions (adds1 ++ adds2) options = addOptions adds2 (addOptions adds1 options).
Proof. unfold addOptions. apply fold_left_app. Qed.

Lemma addFacetOptions_pageAdds facets : forall options,
  (forall k obj, In (k, obj) facets -> obj <> None) ->
  addFacetOptions facets options
  = (Normal tt, addOptions (pageAdds facets) options).
Proof.
  induction facets as [| [k [f |]] rest IH]; intros options H.
  - reflexivity.
  - cbn [addFacetOptions pageAdds flat_map fst snd].
    rewrite addOptions_app. apply IH.
    intros k' obj I. apply (H k'). now right.
  - exfalso. apply (H k None); [now left | reflexivity].
Qed.

Lemma in_facetAdds o key f :
  In o (facetAdds key f)
  <-> exists ts, terms f = Some ts
                 /\ In (term o) (Obj.keys ts)
                 /\ o = {| facet := key; term := term o;
                           count := countOf (term o) ts |}.
Proof.
  unfold facetAdds. destruct (terms f) as [ts |].
  - rewrite in_map_iff. split.
    + intros (t & <- & I). rewrite sortTerms_in in I. simpl.
      exists ts. repeat split. exact I.
    + intros (ts' & [= <-] & I & E). exists (term o). split; [now symmetry |].
      now rewrite sortTerms_in.
  - split; [intros [] | intros (ts & E & _); discriminate].
Qed.

Lemma in_pageAdds o facets :
  In o (pageAdds facets)
  <-> exists f ts, In (facet o, Some f) facets
                   /\ terms f = Some ts
                   /\ In (term o) (Obj.keys ts)
                   /\ count o = countOf (term o) ts.
Proof.
  unfold pageAdds. rewrite in_flat_map. split.
  - intros ([k [f |]] & I & A); simpl in A; [| contradiction].
    apply in_facetAdds in A. destruct A as (ts & T & K & E).
    assert (F : facet o = k) by (rewrite E; reflexivity).
    assert (C : count o = countOf (term o) ts) by (rewrite E at 1; reflexivity).
    exists f, ts. rewrite F. auto.
  - intros (f & ts & I & T & K & C).
    exists (facet o, Some f). split; [exact I |]. simpl.
    apply in_facetAdds. exists ts. split; [exact T | split; [exact K |]].
    destruct o as [fo to co]. simpl in *. now rewrite C.
Qed.

Lemma filter_facetAdds facetType key f :
  filter (fun o => (facet o =? facetType)%string) (facetAdds key f)
  = if (key =? facetType)%string then facetAdds key f else [].
Proof.
  unfold facetAdds. destruct (terms f) as [ts |].
  - induction (sortTerms (Obj.keys ts)) as [| t l IH]; simpl.
    + now destruct (key =? facetType)%string.
    + rewrite IH. now destruct (key =? facetType)%string.
  - now destruct (key =? facetType)%string.
Qed.

(** The options added for one facet type are those of its entry. *)
Lemma filter_pageAdds facetType facets :
  Obj.wf facets ->
  filter (fun o => (facet o =? facetType)%string) (pageAdds facets)
  = match Obj.get facetType facets with
    | Some (Some f) => facetAdds facetType f
    | _ => []
    end.
Proof.
  unfold Obj.wf, pageAdds.
  induction facets as [| [k obj] rest IH]; intros W; [reflexivity |].
  inversion W as [| ? ? NI W']; subst.
  cbn [flat_map fst snd Obj.get]. rewrite filter_app, (IH W').
  destruct (String.eqb_spec k facetType) as [-> | N].
  - apply get_none in NI. rewrite NI, app_nil_r.
    destruct obj as [f |]; [| reflexivity].
    now rewrite filter_facetAdds, String.eqb_refl.
  - destruct obj as [f |]; [| reflexivity].
    rewrite filter_facetAdds. apply String.eqb_neq in N. now rewrite N.
Qed.

Lemma parse_normal isVideosPage response this facets :
  pageFacets isVideosPage (survivors isVideosPage response)
             (aggregationOf response) = Normal facets ->
  (forall k obj, In (k, obj) facets -> obj <> None) ->
  fst (parse isVideosPage response this) = Normal tt
  /\ facetOptions (snd (parse isVideosPage response this))
     = addOptions (pageAdds facets) (facetOptions this).
Proof.
  intros P H. unfold parse.
  change (filter (keepCourse isVideosPage)
            match results response with Some cs => cs | None => [] end)
    with (survivors isVideosPage response).
  change (match aggs response with Some fs => fs | None => [] end)
    with (aggregationOf response).
  rewrite P. cbn [facetOptions].
  rewrite (addFacetOptions_pageAdds facets _ H). split; reflexivity.
Qed.

Lemma addOption_fresh o options :
  optionCount (facet o) (term o) options = None ->
  addOption o options = (options ++ [o])%list.
Proof.
  unfold optionCount. induction options as [| o' rest IH]; simpl.
  - reflexivity.
  - unfold sameOption.
    destruct ((facet o' =? facet o) && (term o' =? term o))%string;
      [discriminate |].
    intros H. now rewrite IH.
Qed.

(** Options of pairwise different pairs, none of them held, are appended
    in the order they are added. *)
Lemma addOptions_fresh adds : forall options,
  NoDup (map optionKey adds) ->
  (forall o, In o adds -> optionCount (facet o) (term o) options = None) ->
  addOptions adds options = (options ++ adds)%list.
Proof.
  induction adds as [| o adds IH]; intros options ND F; simpl.
  - now rewrite app_nil_r.
  - inversion ND as [| ? ? NI ND']; subst.
    rewrite IH; [| exact ND' |].
    + rewrite addOption_fresh by (apply F; now left).
      now rewrite <- app_assoc.
    + intros o' I. rewrite optionCount_addOption.
      destruct (String.eqb_spec (facet o) (facet o')) as [Ef | Nf];
        destruct (String.eqb_spec (term o) (term o')) as [Et | Nt]; simpl;
        try (apply F; now right).
      exfalso. apply NI. apply in_map_iff. exists o'. split; [| exact I].
      unfold optionKey. now rewrite Ef, Et.
Qed.

Lemma pageAdds_keys facets :
  Obj.wf facets ->
  (forall k f ts, In (k, Some f) facets -> terms f = Some ts -> Obj.wf ts) ->
  NoDup (map optionKey (pageAdds facets)).
Proof.
  unfold Obj.wf at 1, pageAdds.
  induction facets as [| [k obj] rest IH]; intros W T; [constructor |].
  inversion W as [| ? ? NI W']; subst.
  cbn [flat_map fst snd]. rewrite map_app. apply NoDup_app.
  - destruct obj as [f |]; [| constructor].
    unfold facetAdds. destruct (terms f) as [ts |] eqn:Tf; [| constructor].
    rewrite map_map. unfold optionKey. cbn [facet term].
    apply NoDup_map_NoDup_ForallPairs.
    + intros x y _ _ E. now injection E.
    + eapply Permutation_NoDup; [apply TermSort.Permuted_sort |].
      apply (T k f ts); [now left | exact Tf].
  - apply IH; [exact W' |]. intros k' f ts I. apply (T k'). now right.
  - intros a Ia Ib. apply in_map_iff in Ia, Ib.
    destruct Ia as (o & <- & Io), Ib as (o' & E & Io').
    assert (Fo : facet o = k).
    { destruct obj as [f |]; [| contradiction].
      apply in_facetAdds in Io. destruct Io as (ts & _ & _ & ->). reflexivity. }
    apply (in_pageAdds o' rest) in Io'. destruct Io' as (f' & ts' & I' & _).
    apply NI. unfold optionKey in E. injection E as Ef _.
    rewrite <- Fo, <- Ef. change (facet o') with (fst (facet o', Some f')).
    now apply in_map.
Qed.

(** ** The order in which facet options are added *)

Lemma map_term_facetAdds key f ts :
  terms f = Some ts -> map term (facetAdds key f) = sortTerms (Obj.keys ts).
Proof.
  intros T. unfold facetAdds. rewrite T, map_map. simpl. apply map_id.
Qed.

Lemma wfAggregation_wfNames facets : wfAggregation facets -> wfNames facets.
Proof.
  intros [W T]. split; [exact W |].
  intros ft f ts G E. destruct (T _ _ G) as (ts' & E' & W').
  rewrite E in E'. now injection E' as <-.
Qed.

Lemma removeUnwantedFacets_wfNames isVideosPage facets :
  wfNames facets -> wfNames (removeUnwantedFacets isVideosPage facets).
Proof.
  intros [W T]. unfold removeUnwantedFacets.
  destruct isVideosPage.
  - destruct (Obj.get "course_type" facets) as [[f |] |] eqn:G;
      try (split; assumption).
    split; [now apply wf_delete |].
    intros ft f' ts G'. destruct (String.eqb_spec "course_type" ft) as [<- | N].
    + now rewrite get_delete_eq in G'.
    + rewrite get_delete_ne in G' by assumption. eauto.
  - destruct (Obj.get "course_type" facets) as [[f |] |] eqn:G;
      try (split; assumption).
    destruct (terms f) as [ts |] eqn:Tf; [| split; assumption].
    destruct (Obj.get "video" ts) as [c |]; [| split; assumption].
    destruct (truthyNumber c); [| split; assumption].
    split; [now apply wf_set |].
    intros ft f' ts' G'. destruct (String.eqb_spec "course_type" ft) as [<- | N].
    + rewrite get_set_eq in G'. injection G' as <-. simpl.
      intros [= <-]. apply wf_delete. now apply (T _ _ _ G).
    + rewrite get_set_ne in G' by assumption. eauto.
Qed.

Lemma mergeTerms_wf values f f' :
  forEachM mergeTerm values f = Normal f' ->
  Obj.wf values ->
  (forall ts, terms f = Some ts -> Obj.wf ts) ->
  forall ts', terms f' = Some ts' -> Obj.wf ts'.
Proof.
  intros H Wv Wf ts' T'. destruct f as [[ts |] tot oth].
  - destruct (mergeTerms_spec values ts tot oth Wv) as (ts1 & E & _ & WF & _).
    rewrite E in H. injection H as <-. simpl in T'. injection T' as <-.
    apply WF, Wf. reflexivity.
  - destruct values as [| [t c] rest]; simpl in H; [| discriminate].
    injection H as <-. discriminate.
Qed.

(** When the merge completes, the merge of every entry of the tally did. *)
Lemma mergeFacets_normal_inv allFacets : forall facets facets',
  Obj.wf allFacets ->
  mergeFacets allFacets facets = Normal facets' ->
  forall facetType values,
    In (facetType, values) allFacets ->
    exists f', mergedEntry (Obj.get facetType facets) values = Normal f'.
Proof.
  unfold mergeFacets.
  induction allFacets as [| [ft0 v0] rest IH]; intros facets facets' W H ft values I;
    [contradiction |].
  inversion W as [| ? ? NI W']; subst.
  cbn [forEachM] in H. rewrite mergeFacet_mergedEntry in H.
  destruct (mergedEntry (Obj.get ft0 facets) v0) as [f0 | e] eqn:E0;
    [| discriminate].
  cbn [bind] in H. destruct I as [Q | I].
  - injection Q as <- <-. eauto.
  - destruct (IH _ _ W' H ft values I) as [f' E'].
    rewrite get_set_ne in E'; [eauto |].
    intros ->. apply NI. change ft with (fst (ft, values)). now apply in_map.
Qed.

(** Whenever the merge completes on an aggregation with unique names, the
    merged facets have unique names and no [null] entry. *)
Lemma pageFacets_result isVideosPage courses aggregation facets :
  wfNames aggregation ->
  pageFacets isVideosPage courses aggregation = Normal facets ->
  Obj.wf facets
  /\ forall k obj,
       In (k, obj) facets ->
       exists f, obj = Some f /\ forall ts, terms f = Some ts -> Obj.wf ts.
Proof.
  intros WN H.
  destruct (removeUnwantedFacets_wfNames isVideosPage _ WN) as [W0 T0].
  unfold pageFacets in H.
  set (facets0 := removeUnwantedFacets isVideosPage aggregation) in *.
  set (facetTypes := Obj.keys facets0) in *.
  set (allFacets := tallyCourses facetTypes courses (emptyTally facetTypes)) in *.
  destruct (wfTally_tally facetTypes courses) as [WT VT]. fold allFacets in WT, VT.
  pose proof (mergeFacets_normal_inv allFacets facets0 facets WT H) as OK.
  destruct (mergeFacets_spec allFacets facets0 WT OK)
    as (facets' & E & P & _ & K & WF).
  rewrite H in E. injection E as <-.
  split; [now apply WF |].
  intros k obj I.
  assert (Ik : In k (Obj.keys facets)).
  { change k with (fst (k, obj)). now apply in_map. }
  assert (D : exists values, Obj.get k allFacets = Some values).
  { apply K in Ik. destruct Ik as [Ik | Ik]; [| now apply in_keys_get].
    pose proof (tally_defined facetTypes courses k Ik) as D.
    fold allFacets in D. unfold defined in D.
    destruct (Obj.get k allFacets); [eauto | congruence]. }
  destruct D as [values G].
  destruct (P k values (get_some_in _ _ _ G)) as (f' & E' & G').
  apply in_get in I; [| now apply WF].
  rewrite G' in I. injection I as <-.
  exists f'. split; [reflexivity |].
  destruct (VT _ _ G) as [Wv _]. unfold mergedEntry in E'.
  destruct (Obj.get k facets0) as [[f0 |] |] eqn:G0.
  - apply (mergeTerms_wf values f0 f' E' Wv). intros ts. apply (T0 _ _ _ G0).
  - injection E' as <-. simpl. now intros ts [= <-].
  - injection E' as <-. simpl. now intros ts [= <-].
Qed.

Lemma parse_throw isVideosPage response this e :
  pageFacets isVideosPage (survivors isVideosPage response)
             (aggregationOf response) = Throw e ->
  fst (parse isVideosPage response this) = Throw e
  /\ facetOptions (snd (parse isVideosPage response this)) = facetOptions this.
Proof.
  intros P. unfold parse.
  change (filter (keepCourse isVideosPage)
            match results response with Some cs => cs | None => [] end)
    with (survivors isVideosPage response).
  change (match aggs response with Some fs => fs | None => [] end)
    with (aggregationOf response).
  rewrite P. split; reflexivity.
Qed.

(** C5.  For every response whose aggregation holds each name once,
    [parse] adds the options of the merged facets to the collection in the
    order of [parseAdds], which is the collection itself when it was empty
    before; in that order the options of each facet type come with their
    terms strictly ascending in the lexicographic order, and they are all
    the terms of the merged entry, whatever the order of the terms in the
    aggregation and of the values in the documents. *)
Theorem options_added_in_term_order isVideosPage response this :
  wfNames (aggregationOf response) ->
  let adds := parseAdds isVideosPage response in
  facetOptions (snd (parse isVideosPage response this))
  = addOptions adds (facetOptions this)
  /\ (facetOptions this = [] ->
      facetOptions (snd (parse isVideosPage response this)) = adds)
  /\ forall facetType,
       let added := filter (fun o => (facet o =? facetType)%string) adds in
       StronglySorted termLt (map term added)
       /\ forall facets f ts,
            pageFacets isVideosPage (survivors isVideosPage response)
                       (aggregationOf response) = Normal facets ->
            Obj.get facetType facets = Some (Some f) ->
            terms f = Some ts ->
            Permutation (Obj.keys ts) (map term added).
Proof.
  intros WN. cbv zeta. unfold parseAdds.
  destruct (pageFacets isVideosPage (survivors isVideosPage response)
              (aggregationOf response)) as [facets | e] eqn:E.
  - destruct (pageFacets_result _ _ _ _ WN E) as [W A].
    assert (NN : forall k obj, In (k, obj) facets -> obj <> None).
    { intros k obj I. destruct (A k obj I) as (f & -> & _). discriminate. }
    destruct (parse_normal isVideosPage response this facets E NN) as [_ O].
    split; [exact O | split].
    + intros Empty. rewrite O, Empty. apply addOptions_fresh.
      * apply pageAdds_keys; [exact W |].
        intros k f ts I T. destruct (A k _ I) as (f' & [= <-] & Wts). auto.
      * reflexivity.
    + intros facetType. rewrite (filter_pageAdds facetType facets W).
      destruct (Obj.get facetType facets) as [[f |] |] eqn:G.
      * destruct (A _ _ (get_some_in _ _ _ G)) as (f' & [= <-] & Wts).
        destruct (terms f) as [ts |] eqn:T.
        -- rewrite (map_term_facetAdds facetType f ts T).
           split; [apply sortTerms_ascending; now apply Wts |].
           intros facets1 f1 ts1 [= <-] G1 T1.
           rewrite G in G1. injection G1 as <-.
           rewrite T in T1. injection T1 as <-.
           apply TermSort.Permuted_sort.
        -- unfold facetAdds. rewrite T. split; [constructor |].
           intros facets1 f1 ts1 [= <-] G1 T1.
           rewrite G in G1. injection G1 as <-. congruence.
      * split; [constructor |].
        intros facets1 f1 ts1 [= <-] G1. congruence.
      * split; [constructor |].
        intros facets1 f1 ts1 [= <-] G1. congruence.
  - destruct (parse_throw isVideosPage response this e E) as [_ O].
    split; [exact O | split].
    + intros Empty. now rewrite O.
    + intros facetType. split; [constructor | discriminate].
Qed.

Lemma options_added_in_term_order_witness :
  facetOptions (snd (parse false orderResponse initial))
  = [ {| facet := "subject"; term := "art"; count := 1 |};
      {| facet := "subject"; term := "cs"; count := 2 |};
      {| facet := "subject"; term := "math"; count := 1 |};
      {| facet := "subject"; term := "physics"; count := 4 |} ].
Proof.
  refine (eq_trans
            (proj1 (options_added_in_term_order false orderResponse initial _))
            _).
  - apply wfAggregation_wfNames, wfAggregationb_sound. reflexivity.
  - reflexivity.
Defined.

(** ** What one page adds *)

(** The facet types of the merged facets are those of the aggregation
    after the removal of the unwanted ones. *)
Lemma pageFacets_keys isVideosPage courses aggregation facets k :
  pageFacets isVideosPage courses aggregation = Normal facets ->
  In k (Obj.keys facets) ->
  In k (Obj.keys (removeUnwantedFacets isVideosPage aggregation)).
Proof.
  unfold pageFacets.
  set (facets0 := removeUnwantedFacets isVideosPage aggregation).
  set (allFacets := tallyCourses (Obj.keys facets0) courses
                                 (emptyTally (Obj.keys facets0))).
  intros H I.
  destruct (wfTally_tally (Obj.keys facets0) courses) as [WT _].
  fold allFacets in WT.
  pose proof (mergeFacets_normal_inv allFacets facets0 facets WT H) as OK.
  destruct (mergeFacets_spec allFacets facets0 WT OK)
    as (facets' & E & _ & _ & K & _).
  rewrite H in E. injection E as <-.
  apply K in I. destruct I as [I | I]; [exact I |].
  now apply tally_keys in I.
Qed.

(** What [parse] does to the collection of facet options is to add the
    options of [parseAdds], in their order. *)
Lemma parse_facetOptions isVideosPage response this :
  wfNames (aggregationOf response) ->
  facetOptions (snd (parse isVideosPage response this))
  = addOptions (parseAdds isVideosPage response) (facetOptions this).
Proof.
  intros WN. unfold parseAdds.
  destruct (pageFacets isVideosPage (survivors isVideosPage response)
              (aggregationOf response)) as [facets | e] eqn:E.
  - destruct (pageFacets_result _ _ _ _ WN E) as [W A].
    apply (parse_normal isVideosPage response this facets E).
    intros k obj I. destruct (A k obj I) as (f & -> & _). discriminate.
  - apply (parse_throw isVideosPage response this e E).
Qed.




(** ** Adding never removes *)





(** ** Two pages in a row *)




(** ** A missing or malformed aggregation *)

Lemma tallyCourses_nil courses : forall allFacets,
  tallyCourses [] courses allFacets = allFacets.
Proof.
  unfold tallyCourses.
  induction courses as [| c cs IH]; intros allFacets; simpl; [reflexivity |].
  apply IH.
Qed.

Lemma pageFacets_empty isVideosPage courses :
  pageFacets isVideosPage courses [] = Normal [].
Proof.
  unfold pageFacets.
  replace (removeUnwantedFacets isVideosPage []) with (@nil (string * option Facet))
    by now destruct isVideosPage.
  cbn [Obj.keys map]. rewrite tallyCourses_nil. reflexivity.
Qed.

(** C8 (as amended).  A response without an aggregation is parsed as the
    response with the empty aggregation [{}] is: [parse] completes without
    an error, and as the local tally ranges over the facet types of the
    aggregation only, it leaves the collection of facet options as it
    was. *)
Theorem missing_aggregation isVideosPage response this :
  aggs response = None ->
  parse isVideosPage response this
  = parse isVideosPage {| results := results response; aggs := Some [] |} this
  /\ fst (parse isVideosPage response this) = Normal tt
  /\ facetOptions (snd (parse isVideosPage response this)) = facetOptions this.
Proof.
  intros H. unfold parse. cbn [results aggs]. rewrite H.
  rewrite pageFacets_empty. repeat split.
Qed.

Lemma missing_aggregation_witness :
  parse false {| results := Some [firstDocument]; aggs := None |} initial
  = (Normal tt,
     {| totalCount := 1; latestCount := 1;
        courseCards := [data firstDocument]; facetOptions := [] |}).
Proof.
  refine (eq_trans
            (proj1 (missing_aggregation
                      false {| results := Some [firstDocument]; aggs := None |}
                      initial _))
            _); reflexivity.
Defined.

(** C8 as stated fails for a malformed aggregation.  An entry without
    [terms] makes [parse] throw as soon as a surviving document carries the
    facet, and a [null] entry is not treated as the empty aggregation: its
    facet is tallied and gets an option. *)
Lemma malformed_aggregation_throws :
  let noTerms :=
    {| results := Some [firstDocument];
       aggs := Some [("subject",
                      Some {| terms := None; total := 1; other := 0 |})] |} in
  let nullEntry :=
    {| results := Some [firstDocument]; aggs := Some [("subject", None)] |} in
  let emptyAggregation :=
    {| results := Some [firstDocument]; aggs := Some [] |} in
  fst (parse false noTerms initial) = Throw TypeError
  /\ parse false noTerms initial <> parse false emptyAggregation initial
  /\ facetOptions (snd (parse false nullEntry initial))
     = [ {| facet := "subject"; term := "cs"; count := 1 |} ]
  /\ facetOptions (snd (parse false emptyAggregation initial)) = [].
Proof.
  cbv zeta. repeat split. discriminate.
Qed.

(** * Further properties of the coordinator *)

Lemma filters_add_add m1 m2 f1 f2 fs :
  type f1 = type f2 ->
  Filters.add m2 f2 (Filters.add m1 f1 fs) = Filters.add m2 f2 fs.
Proof.
  intros E. induction fs as [| g fs IH]; simpl.
  - now rewrite E, String.eqb_refl.
  - destruct (String.eqb_spec (type g) (type f1)) as [Q | N]; simpl.
    + replace (type g) with (type f2) by congruence.
      now rewrite E, !String.eqb_refl.
    + assert (N2 : (type g =? type f2)%string = false)
        by (apply String.eqb_neq; congruence).
      now rewrite N2, IH.
Qed.

Lemma filters_remove_absent_id ty fs :
  Filters.get ty fs = None -> Filters.remove ty fs = fs.
Proof.
  unfold Filters.get, Filters.remove.
  induction fs as [| g fs IH]; simpl; [reflexivity |].
  destruct (type g =? ty)%string; [discriminate |].
  intros H. simpl. now rewrite IH.
Qed.

Lemma filters_get_remove_ne ty ty' fs :
  ty' <> ty -> Filters.get ty' (Filters.remove ty fs) = Filters.get ty' fs.
Proof.
  intros N. unfold Filters.get, Filters.remove.
  induction fs as [| g fs IH]; simpl; [reflexivity |].
  destruct (String.eqb_spec (type g) ty) as [E | NE]; simpl.
  - destruct (String.eqb_spec (type g) ty'); [congruence | exact IH].
  - destruct (type g =? ty')%string; [reflexivity | exact IH].
Qed.

(** X1.  Each of the four handlers that start a search (the form's search,
    the selection of a refinement, the clearing of one filter and the
    clearing of all) shows the loading indicator and makes exactly one call
    on the search state, [performSearch] or [refineSearch], with the terms
    of the filter collection as the handler leaves it; the message and the
    rendered views stay.  The listing's ['next'] only calls [loadNextPage]:
    filters, indicator and message stay. *)
Theorem view_event_requests e p :
  let p' := onViewEvent e p in
  message p' = message p
  /\ renders p' = renders p
  /\ match e with
     | ListingNext =>
         requests p' = (requests p ++ [LoadNextPage])%list
         /\ filters p' = filters p
         /\ loadingIndicator p' = loadingIndicator p
     | _ =>
         loadingIndicator p' = true
         /\ exists r,
              requests p' = (requests p ++ [r])%list
              /\ r <> LoadNextPage
              /\ requestTerms r = filters p'
     end.
Proof.
  assert (R : forall ty p0,
             message (removeFilter ty p0) = message p0
             /\ renders (removeFilter ty p0) = renders p0
             /\ loadingIndicator (removeFilter ty p0) = true
             /\ exists r,
                  requests (removeFilter ty p0) = (requests p0 ++ [r])%list
                  /\ r <> LoadNextPage
                  /\ requestTerms r = filters (removeFilter ty p0)).
  { intros ty p0. unfold removeFilter. cbv zeta.
    destruct (ty =? "search_query")%string; simpl;
      repeat split; eexists; repeat split; discriminate. }
  destruct e as [q | ty q nm | ty | |]; cbv zeta; simpl.
  - repeat split. eexists. repeat split. discriminate.
  - unfold handleQueryParams. cbv zeta. simpl.
    destruct (Filters.get ty (filters p)).
    + destruct (R ty (setLoadingIndicator true p)) as (M & V & L & r & Q).
      repeat split; try assumption. exists r. exact Q.
    + simpl. repeat split. eexists. repeat split. discriminate.
  - destruct (R ty p) as (M & V & L & r & Q).
    repeat split; try assumption. exists r. exact Q.
  - repeat split. eexists. repeat split. discriminate.
  - repeat split.
Qed.

(** X2.  Clearing the filter of type [search_query] is clearing all: it
    does what the ['clearAll'] handler does, so every other filter goes as
    well and a fresh search for the empty query with no terms is made. *)
Theorem clear_search_query_clears_all p :
  removeFilter "search_query" p = onClearAll p
  /\ filters (removeFilter "search_query" p) = []
  /\ requests (removeFilter "search_query" p)
     = (requests p ++ [PerformSearch "" []])%list.
Proof.
  repeat split.
Qed.

(** X3.  Clearing the filter of a type other than [search_query] removes
    that type only: the terms of every other type stay, the collection no
    longer holds the type, and [refineSearch] is called with what is left.
    When the type was not held the collection is unchanged and the search
    is made all the same. *)
Theorem clear_filter_keeps_others ty p :
  ty <> "search_query" ->
  let p' := removeFilter ty p in
  Filters.get ty (filters p') = None
  /\ (forall ty', ty' <> ty ->
                  Filters.get ty' (filters p') = Filters.get ty' (filters p))
  /\ requests p' = (requests p ++ [RefineSearch (filters p')])%list
  /\ (Filters.get ty (filters p) = None -> filters p' = filters p).
Proof.
  intros N. cbv zeta. unfold removeFilter. cbv zeta.
  apply String.eqb_neq in N. rewrite N. simpl.
  split; [apply filters_get_remove | split; [| split]].
  - intros ty' N'. now apply filters_get_remove_ne.
  - reflexivity.
  - apply filters_remove_absent_id.
Qed.

Lemma clear_filter_keeps_others_witness :
  let p := {| filters := [ {| type := "subject"; query := "cs";
                              name := "Computer Science" |};
                           {| type := "language"; query := "en";
                              name := "English" |} ];
              loadingIndicator := false; message := NoMessage;
              requests := []; renders := [] |} in
  Filters.get "subject" (filters (removeFilter "subject" p)) = None
  /\ requests (removeFilter "subject" p)
     = [RefineSearch [ {| type := "language"; query := "en";
                          name := "English" |} ]].
Proof.
  intros p.
  assert (N : "subject" <> "search_query") by discriminate.
  destruct (clear_filter_keeps_others "subject" p N) as (G & _ & R & _).
  split; [exact G | exact R].
Defined.

Lemma handleQueryParams_absent ty q nm p :
  Filters.get ty (filters p) = None ->
  let fs := (filters p ++ [{| type := ty; query := q; name := nm |}])%list in
  handleQueryParams ty q nm p
  = request (RefineSearch fs) (setFilters fs (setLoadingIndicator true p)).
Proof.
  intros A. cbv zeta. unfold handleQueryParams. cbv zeta. simpl. rewrite A.
  now rewrite (filters_add_absent false
                 {| type := ty; query := q; name := nm |}) by exact A.
Qed.

Lemma handleQueryParams_active ty q nm p :
  Filters.get ty (filters p) <> None ->
  handleQueryParams ty q nm p = removeFilter ty p.
Proof.
  intros A. unfold handleQueryParams. cbv zeta. simpl.
  destruct (Filters.get ty (filters p)); [reflexivity | congruence].
Qed.

(** X4.  Selecting a refinement that is not active and then selecting it
    again gives back the filter collection as it was, for every type but
    [search_query]: the first selection calls [refineSearch] with the term
    appended, the second with the collection as it was before. *)
Theorem select_twice_restores ty q nm p :
  ty <> "search_query" ->
  Filters.get ty (filters p) = None ->
  let term := {| type := ty; query := q; name := nm |} in
  let p'' := handleQueryParams ty q nm (handleQueryParams ty q nm p) in
  filters p'' = filters p
  /\ requests p''
     = (requests p ++ [RefineSearch (filters p ++ [term]);
                       RefineSearch (filters p)])%list.
Proof.
  intros N A. cbv zeta.
  assert (R : Filters.remove ty
                (filters p ++ [{| type := ty; query := q; name := nm |}])%list
              = filters p).
  { unfold Filters.remove. rewrite filter_app. simpl.
    rewrite String.eqb_refl. simpl. rewrite app_nil_r.
    now apply filters_remove_absent_id. }
  assert (G : Filters.get ty
                (filters p ++ [{| type := ty; query := q; name := nm |}])%list
              = Some {| type := ty; query := q; name := nm |}).
  { rewrite <- (filters_add_absent false
                  {| type := ty; query := q; name := nm |}) by exact A.
    apply (filters_get_add_eq false {| type := ty; query := q; name := nm |}). }
  rewrite (handleQueryParams_absent ty q nm p A). cbv zeta.
  rewrite handleQueryParams_active by (simpl; congruence).
  unfold removeFilter. cbv zeta. apply String.eqb_neq in N. rewrite N.
  simpl. rewrite R. split; [reflexivity |].
  now rewrite <- app_assoc.
Qed.

Lemma select_twice_restores_witness :
  let p := {| filters := [ {| type := "language"; query := "en";
                              name := "English" |} ];
              loadingIndicator := false; message := NoMessage;
              requests := []; renders := [] |} in
  filters (handleQueryParams "subject" "cs" "Computer Science"
             (handleQueryParams "subject" "cs" "Computer Science" p))
  = filters p.
Proof.
  intros p.
  assert (N : "subject" <> "search_query") by discriminate.
  exact (proj1 (select_twice_restores
                  "subject" "cs" "Computer Science" p N eq_refl)).
Defined.

(** X5.  Successive ['search'] events with results do not pile up terms of
    type [search_query]: after two of them with non-empty queries the
    filter collection is what the second alone would leave, the later query
    taking the place of the earlier one. *)
Theorem search_event_last_query_wins q1 q2 total1 total2 p :
  0 < total1 -> 0 < total2 -> q1 <> "" -> q2 <> "" ->
  filters (onSearch q2 total2 (onSearch q1 total1 p))
  = filters (onSearch q2 total2 p).
Proof.
  intros T1 T2 N1 N2. unfold onSearch. cbv zeta.
  apply Z.ltb_lt in T1, T2. rewrite T1, T2.
  apply String.eqb_neq in N1, N2. rewrite N1, N2. simpl.
  now apply filters_add_add.
Qed.

Lemma search_event_last_query_wins_witness :
  let p := {| filters := [ {| type := "subject"; query := "cs";
                              name := "Computer Science" |} ];
              loadingIndicator := true; message := NoMessage;
              requests := []; renders := [] |} in
  filters (onSearch "rust" 3 (onSearch "python" 2 p))
  = filters (onSearch "rust" 3 p).
Proof.
  intros p.
  apply (search_event_last_query_wins "python" "rust" 2 3 p);
    first [lia | discriminate].
Defined.

(** * Further properties of the discovery model *)

Lemma keepCourse_negb course :
  keepCourse true course = negb (keepCourse false course).
Proof. unfold keepCourse. now rewrite negb_involutive. Qed.

(** X7.  The videos page and the other pages split every response between
    them: the two values of [totalCount] add up to the number of documents
    the server sent, and a document of the response survives on the videos
    page exactly when it does not survive elsewhere. *)
Theorem pages_split_results response this1 this2 :
  totalCount (snd (parse true response this1))
  + totalCount (snd (parse false response this2))
  = Z.of_nat (List.length (rawResults response))
  /\ forall course,
       In course (rawResults response) ->
       (In course (survivors true response)
        <-> ~ In course (survivors false response)).
Proof.
  split.
  - destruct (parse_counts true response this1) as (T1 & _).
    destruct (parse_counts false response this2) as (T2 & _).
    cbv zeta in T1, T2. rewrite T1, T2. unfold survivors, rawResults.
    set (cs := match results response with Some cs => cs | None => [] end).
    rewrite <- Nat2Z.inj_add. f_equal.
    rewrite <- (filter_length (keepCourse false) cs), Nat.add_comm.
    f_equal. apply (f_equal (@List.length Course)).
    apply filter_ext. intros c. apply keepCourse_negb.
  - intros course I. unfold survivors.
    fold (rawResults response). rewrite !filter_In, keepCourse_negb.
    destruct (keepCourse false course); simpl; intuition discriminate.
Qed.

(** ** Which options a page adds *)



(** X9.  On the videos page [parse] passes no option of the facet type
    [course_type] to [options.add], whatever the documents and the other
    entries of the aggregation are, as long as the [course_type] entry of
    the aggregation is not [null]. *)
Theorem videos_page_drops_course_type response :
  Obj.get "course_type" (aggregationOf response) <> Some None ->
  forall o, In o (parseAdds true response) -> facet o <> "course_type".
Proof.
  intros NN o I F. unfold parseAdds in I.
  destruct (pageFacets true (survivors true response) (aggregationOf response))
    as [facets | e] eqn:E; [| contradiction].
  apply in_pageAdds in I. destruct I as (f & ts & I & _).
  assert (Ik : In (facet o) (Obj.keys facets)).
  { change (facet o) with (fst (facet o, Some f)). now apply in_map. }
  apply (pageFacets_keys _ _ _ _ _ E) in Ik. rewrite F in Ik.
  unfold removeUnwantedFacets in Ik.
  destruct (Obj.get "course_type" (aggregationOf response)) as [[f0 |] |] eqn:G.
  - apply in_keys_get in Ik. destruct Ik as [v Q].
    now rewrite get_delete_eq in Q.
  - congruence.
  - apply get_none in G. contradiction.
Qed.

Lemma videos_page_drops_course_type_witness :
  parseAdds true videosResponse
  = [ {| facet := "subject"; term := "cs"; count := 3 |} ]
  /\ facet {| facet := "subject"; term := "cs"; count := 3 |} <> "course_type".
Proof.
  split; [reflexivity |].
  apply (videos_page_drops_course_type videosResponse).
  - discriminate.
  - simpl. tauto.
Defined.

(** The terms of a merged entry are those of the aggregation and those the
    documents carry, whenever the merge completes. *)
Lemma pageFacets_terms isVideosPage courses aggregation facets facetType f ts t :
  wfNames aggregation ->
  pageFacets isVideosPage courses aggregation = Normal facets ->
  In (facetType, Some f) facets ->
  terms f = Some ts ->
  In t (Obj.keys ts) ->
  In t (serverTerms (removeUnwantedFacets isVideosPage aggregation) facetType)
  \/ 0 < sumOver (occurrences t) facetType courses.
Proof.
  intros WN H I T K.
  destruct (removeUnwantedFacets_wfNames isVideosPage _ WN) as [W0 T0].
  unfold pageFacets in H.
  set (facets0 := removeUnwantedFacets isVideosPage aggregation) in *.
  set (facetTypes := Obj.keys facets0) in *.
  set (allFacets := tallyCourses facetTypes courses (emptyTally facetTypes)) in *.
  destruct (wfTally_tally facetTypes courses) as [WT VT]. fold allFacets in WT, VT.
  pose proof (mergeFacets_normal_inv allFacets facets0 facets WT H) as OK.
  destruct (mergeFacets_spec allFacets facets0 WT OK)
    as (facets' & E & P & _ & Kf & WF).
  rewrite H in E. injection E as <-.
  assert (Ik : In facetType (Obj.keys facets)).
  { change facetType with (fst (facetType, Some f)). now apply in_map. }
  assert (Ift : In facetType facetTypes).
  { apply Kf in Ik. destruct Ik as [Ik | Ik]; [exact Ik |].
    now apply tally_keys in Ik. }
  pose proof (tally_defined facetTypes courses facetType Ift) as D.
  fold allFacets in D. unfold defined in D.
  destruct (Obj.get facetType allFacets) as [values |] eqn:G; [| congruence].
  destruct (P facetType values (get_some_in _ _ _ G)) as (f' & E' & G').
  apply in_get in I; [| now apply WF]. rewrite G' in I. injection I as ->.
  destruct (VT _ _ G) as [Wv Pv].
  assert (Local : In t (Obj.keys values) ->
                  0 < sumOver (occurrences t) facetType courses).
  { intros Kv.
    rewrite <- (tally_count facetTypes courses facetType values t W0 Ift G).
    now apply in_keys_positive. }
  unfold mergedEntry in E'. unfold serverTerms.
  destruct (Obj.get facetType facets0) as [[f0 |] |] eqn:G0.
  - destruct f0 as [[ts0 |] tot oth]; simpl.
    + destruct (mergeTerms_spec values ts0 tot oth Wv) as (ts' & Em & Kk & _).
      rewrite Em in E'. injection E' as <-. simpl in T. injection T as <-.
      apply Kk in K. destruct K as [K | K]; [now left | right; auto].
    + destruct values as [| [t0 c0] rest]; simpl in E'; [| discriminate].
      injection E' as <-. discriminate.
  - injection E' as <-. simpl in T. injection T as <-. right. auto.
  - injection E' as <-. simpl in T. injection T as <-. right. auto.
Qed.

Lemma sumOver_zero t facetType courses :
  (forall course, In course courses ->
                  occurrences t (prop facetType (data course)) = 0) ->
  sumOver (occurrences t) facetType courses = 0.
Proof.
  induction courses as [| c cs IH]; intros H; simpl; [reflexivity |].
  rewrite H by now left. rewrite IH; [reflexivity |].
  intros c' I. apply H. now right.
Qed.

(** X10.  Off the videos page [parse] passes no option for the term
    [video] of [course_type] to [options.add], provided the aggregation
    holds each name once and does not hold that term with the count 0, and
    the [course_type] of every surviving document is a string, or falsy. *)
Theorem other_pages_drop_video_term response :
  wfNames (aggregationOf response) ->
  (forall f ts,
      Obj.get "course_type" (aggregationOf response) = Some (Some f) ->
      terms f = Some ts ->
      Obj.get "video" ts <> Some 0) ->
  (forall course,
      In course (survivors false response) ->
      truthy (prop "course_type" (data course)) = false
      \/ exists s, prop "course_type" (data course) = JsString s) ->
  forall o, In o (parseAdds false response) ->
            facet o = "course_type" -> term o <> "video".
Proof.
  intros WN NZ A o I F V. unfold parseAdds in I.
  destruct (pageFacets false (survivors false response) (aggregationOf response))
    as [facets | e] eqn:E; [| contradiction].
  apply in_pageAdds in I. destruct I as (f & ts & I & T & K & _).
  rewrite F in I. rewrite V in K.
  destruct (pageFacets_terms _ _ _ _ _ _ _ _ WN E I T K) as [S | L].
  - revert S. unfold serverTerms, removeUnwantedFacets.
    destruct (Obj.get "course_type" (aggregationOf response))
      as [[f0 |] |] eqn:G; try (rewrite G; tauto).
    destruct (terms f0) as [ts0 |] eqn:T0; [| rewrite G, T0; tauto].
    destruct (Obj.get "video" ts0) as [c |] eqn:V0.
    + unfold truthyNumber. destruct (Z.eqb_spec c 0) as [-> | N]; simpl.
      * exfalso. now apply (NZ f0 ts0).
      * rewrite get_set_eq. simpl. apply get_none, get_delete_eq.
    + rewrite G, T0. now apply get_none.
  - rewrite sumOver_zero in L; [lia |].
    intros c Ic.
    assert (Kc : keepCourse false c = true).
    { unfold survivors in Ic. apply filter_In in Ic. tauto. }
    unfold keepCourse in Kc. apply negb_true_iff in Kc.
    unfold occurrences. destruct (A c Ic) as [Fa | [s Q]].
    + now rewrite Fa.
    + rewrite Q in *. cbn [strictEqString toString] in *.
      rewrite Kc. now destruct (truthy (JsString s)).
Qed.

Lemma other_pages_drop_video_term_witness :
  parseAdds false mixedResponse
  = [ {| facet := "course_type"; term := "course"; count := 2 |} ]
  /\ term {| facet := "course_type"; term := "course"; count := 2 |} <> "video".
Proof.
  split; [reflexivity |].
  apply (other_pages_drop_video_term mixedResponse).
  - apply wfAggregation_wfNames, wfAggregationb_sound. reflexivity.
  - intros f ts G T. cbn in G. injection G as <-. cbn in T.
    injection T as <-. discriminate.
  - intros course Ic. cbn in Ic. destruct Ic as [<- | []].
    right. eexists. reflexivity.
  - simpl. tauto.
  - reflexivity.
Defined.



(** ** When [parse] throws *)

Lemma tally_empty_iff (values : Obj.t Z) :
  (forall t c, Obj.get t values = Some c -> 0 < c) ->
  values = [] <-> forall t, countOf t values = 0.
Proof.
  intros P. split.
  - intros ->. reflexivity.
  - intros H. destruct values as [| [k c] rest]; [reflexivity |].
    exfalso. specialize (H k). specialize (P k c).
    unfold countOf in H. simpl in *. rewrite String.eqb_refl in *.
    specialize (P eq_refl). lia.
Qed.

Lemma mergeTerms_no_terms values f :
  terms f = None ->
  (exists f', forEachM mergeTerm values f = Normal f') <-> values = [].
Proof.
  intros T. split.
  - intros [f' H]. destruct values as [| [t c] rest]; [reflexivity |].
    simpl in H. rewrite T in H. discriminate.
  - intros ->. simpl. eauto.
Qed.

(** The merge completes exactly when no entry without [terms] has its
    facet carried by a surviving document. *)
Lemma pageFacets_normal_iff isVideosPage courses aggregation :
  wfNames aggregation ->
  let facets0 := removeUnwantedFacets isVideosPage aggregation in
  (exists facets, pageFacets isVideosPage courses aggregation = Normal facets)
  <-> (forall facetType f,
          Obj.get facetType facets0 = Some (Some f) ->
          terms f = None ->
          forall t, sumOver (occurrences t) facetType courses = 0).
Proof.
  intros WN facets0.
  destruct (removeUnwantedFacets_wfNames isVideosPage _ WN) as [W0 T0].
  fold facets0 in W0, T0. unfold pageFacets. fold facets0.
  set (facetTypes := Obj.keys facets0).
  set (allFacets := tallyCourses facetTypes courses (emptyTally facetTypes)).
  destruct (wfTally_tally facetTypes courses) as [WT VT]. fold allFacets in WT, VT.
  assert (Tl : forall ft values t,
             In ft facetTypes ->
             Obj.get ft allFacets = Some values ->
             countOf t values = sumOver (occurrences t) ft courses).
  { intros ft values t I G. now apply (tally_count facetTypes). }
  assert (Keys : forall ft v, Obj.get ft facets0 = Some v -> In ft facetTypes).
  { intros ft v G. apply in_keys_get. eauto. }
  split.
  - intros [facets H] ft f G T t.
    pose proof (Keys _ _ G) as I.
    pose proof (tally_defined facetTypes courses ft I) as D.
    fold allFacets in D. unfold defined in D.
    destruct (Obj.get ft allFacets) as [values |] eqn:Q; [| congruence].
    destruct (mergeFacets_normal_inv allFacets facets0 facets WT H
                ft values (get_some_in _ _ _ Q)) as [f' M].
    unfold mergedEntry in M. rewrite G in M.
    assert (E : values = []) by (apply (mergeTerms_no_terms values f T); eauto).
    rewrite <- (Tl ft values t I Q), E. reflexivity.
  - intros Cond.
    destruct (mergeFacets_spec allFacets facets0 WT) as (facets & E & _);
      [| eauto].
    intros ft values I. apply in_get in I; [| exact WT].
    destruct (VT _ _ I) as [Wv Pv]. unfold mergedEntry.
    destruct (Obj.get ft facets0) as [[f |] |] eqn:G; eauto.
    destruct f as [[ts |] tot oth].
    + destruct (mergeTerms_spec values ts tot oth Wv) as (ts' & E & _). eauto.
    + apply mergeTerms_no_terms; [reflexivity |].
      apply tally_empty_iff; [exact Pv |].
      intros t. rewrite (Tl ft values t (Keys _ _ G) I).
      now apply (Cond ft _ G).
Qed.

(** X12.  For a response whose aggregation holds each name once, with
    ordinary names only, [parse] completes exactly when no entry of the
    aggregation that lacks its [terms] has its facet carried by a surviving
    document; otherwise it throws a [TypeError], with the facet options
    untouched but both counts already written. *)
Theorem parse_completes_iff isVideosPage response this :
  wfNames (aggregationOf response) ->
  ordinaryNames (aggregationOf response) (survivors isVideosPage response)
  = true ->
  let facets0 := removeUnwantedFacets isVideosPage (aggregationOf response) in
  let documents := survivors isVideosPage response in
  let this' := snd (parse isVideosPage response this) in
  (fst (parse isVideosPage response this) = Normal tt
   <-> (forall facetType f,
           Obj.get facetType facets0 = Some (Some f) ->
           terms f = None ->
           forall t, sumOver (occurrences t) facetType documents = 0))
  /\ (fst (parse isVideosPage response this) <> Normal tt ->
      fst (parse isVideosPage response this) = Throw TypeError
      /\ facetOptions this' = facetOptions this
      /\ totalCount this' = Z.of_nat (List.length documents)
      /\ latestCount this' = Z.of_nat (List.length documents)).
Proof.
  intros WN _. cbv zeta.
  pose proof (pageFacets_normal_iff isVideosPage
                (survivors isVideosPage response) _ WN) as Iff.
  cbv zeta in Iff.
  destruct (pageFacets isVideosPage (survivors isVideosPage response)
              (aggregationOf response)) as [facets | e] eqn:E.
  - destruct (pageFacets_result _ _ _ _ WN E) as [W A].
    assert (N : fst (parse isVideosPage response this) = Normal tt).
    { apply (parse_normal isVideosPage response this facets E).
      intros k obj I. destruct (A k obj I) as (f & -> & _). discriminate. }
    split; [| congruence].
    split; [intros _; apply Iff; eauto | intros _; exact N].
  - destruct (parse_throw isVideosPage response this e E) as [T O].
    destruct (parse_counts isVideosPage response this) as (Tc & L & _).
    split.
    + rewrite T. split; [discriminate |].
      intros Cond. apply Iff in Cond. destruct Cond as [facets Q]. discriminate.
    + intros _. destruct e. auto.
Qed.

Lemma parse_completes_iff_witness :
  fst (parse false noTermsResponse initial) = Normal tt
  /\ fst (parse true noTermsResponse initial) = Throw TypeError.
Proof.
  assert (WN : wfNames (aggregationOf noTermsResponse)).
  { split; [repeat constructor; simpl; tauto |].
    intros ft f ts G T. cbn [Obj.get aggregationOf aggs noTermsResponse] in G.
    destruct ("subject" =? ft)%string; [| discriminate G].
    injection G as <-. discriminate T. }
  split.
  - apply (proj1 (parse_completes_iff false noTermsResponse initial WN eq_refl)).
    intros ft f G T t. reflexivity.
  - apply (proj2 (parse_completes_iff true noTermsResponse initial WN eq_refl)).
    discriminate.
Defined.

(** ** Parsing the same response object twice *)






(** * The query string of the page address *)

Lemma splitPieces_free sep s :
  free sep s = true -> splitPieces sep s = (s, []).
Proof.
  induction s as [| c s IH]; simpl; [reflexivity |].
  intros H. apply andb_true_iff in H. destruct H as [N F].
  apply negb_true_iff in N. now rewrite (IH F), N.
Qed.

Lemma splitPieces_app sep a b :
  free sep a = true ->
  splitPieces sep (a ++ String sep b) = (a, split sep b).
Proof.
  unfold split. induction a as [| c a IH]; simpl.
  - intros _. destruct (splitPieces sep b). now rewrite Ascii.eqb_refl.
  - intros H. apply andb_true_iff in H. destruct H as [N F].
    apply negb_true_iff in N. now rewrite (IH F), N.
Qed.

(** Splitting what [join] made of pieces free of the separator gives the
    pieces back. *)
Lemma split_join sep pieces :
  pieces <> [] ->
  Forall (fun piece => free sep piece = true) pieces ->
  split sep (join (String sep EmptyString) pieces) = pieces.
Proof.
  induction pieces as [| p rest IH]; [congruence |].
  intros _ F. inversion F as [| ? ? Fp Fr]; subst.
  destruct rest as [| q rest].
  - simpl. unfold split. now rewrite splitPieces_free.
  - change (join (String sep "") (p :: q :: rest))
      with (p ++ String sep (join (String sep "") (q :: rest)))%string.
    unfold split at 1. rewrite splitPieces_app by exact Fp.
    now rewrite IH.
Qed.

Section QueryParamsFacts.
Variable decode : string -> option string.

Lemma setParam_pieces params piece :
  setParam decode params piece
  = match decode (pieceName piece) with
    | None => None
    | Some key =>
        match decode (pieceValue piece) with
        | None => None
        | Some value => Some (Obj.set key value params)
        end
    end.
Proof.
  unfold setParam, pieceName, pieceValue.
  now destruct (splitPieces equalsSign piece).
Qed.

Lemma piece_of_pair k v :
  free equalsSign k = true ->
  free equalsSign v = true ->
  pieceName (k ++ String equalsSign v) = k
  /\ pieceValue (k ++ String equalsSign v) = v.
Proof.
  intros Fk Fv. unfold pieceName, pieceValue.
  rewrite splitPieces_app by exact Fk. unfold split.
  now rewrite splitPieces_free.
Qed.

Lemma setParams_pairs pairs : forall params,
  (forall k v, In (k, v) pairs ->
               plain k = true /\ plain v = true
               /\ decode k = Some k /\ decode v = Some v) ->
  setParams decode params
    (map (fun kv => (fst kv ++ String equalsSign (snd kv))%string) pairs)
  = Some (fold_left (fun o kv => Obj.set (fst kv) (snd kv) o) pairs params).
Proof.
  induction pairs as [| [k v] pairs IH]; intros params H; [reflexivity |].
  destruct (H k v) as (Pk & Pv & Dk & Dv); [now left |].
  unfold plain in Pk, Pv. apply andb_true_iff in Pk, Pv.
  cbn [map setParams fst snd fold_left].
  rewrite setParam_pieces.
  destruct (piece_of_pair k v) as [-> ->]; try tauto.
  rewrite Dk, Dv. apply IH. intros k' v' I. apply H. now right.
Qed.

Lemma get_fold_set (pairs : list (string * string)) : forall params name,
  Obj.get name (fold_left (fun o kv => Obj.set (fst kv) (snd kv) o) pairs params)
  = match lastValue name pairs with
    | Some v => Some v
    | None => Obj.get name params
    end.
Proof.
  unfold lastValue.
  induction pairs as [| [k v] pairs IH] using rev_ind; intros params name.
  - reflexivity.
  - rewrite fold_left_app, rev_app_distr. simpl.
    destruct (String.eqb_spec k name) as [-> | N]; simpl.
    + apply get_set_eq.
    + rewrite get_set_ne by exact N. apply IH.
Qed.

Lemma getQueryParams_pairs first pairs :
  pairs <> [] ->
  (forall k v, In (k, v) pairs ->
               plain k = true /\ plain v = true
               /\ decode k = Some k /\ decode v = Some v) ->
  getQueryParams decode (String first (buildQuery pairs))
  = Some (fold_left (fun o kv => Obj.set (fst kv) (snd kv) o) pairs []).
Proof.
  intros NE H. unfold getQueryParams, buildQuery. cbn [substring1].
  rewrite split_join.
  - now apply setParams_pairs.
  - destruct pairs; [congruence | discriminate].
  - apply Forall_forall. intros piece I. apply in_map_iff in I.
    destruct I as ([k v] & <- & I). destruct (H k v I) as (Pk & Pv & _).
    unfold plain in Pk, Pv. apply andb_true_iff in Pk, Pv. simpl.
    clear - Pk Pv. destruct Pk as [Fk _], Pv as [Fv _].
    induction k as [| c k IH]; simpl in *.
    + now rewrite Fv.
    + apply andb_true_iff in Fk. destruct Fk as [N Fk].
      rewrite N. simpl. now apply IH.
Qed.

(** X14.  [getQueryParams] reads back what a query string was built from:
    for a non-empty list of pairs whose names and values hold no
    ampersand, no equals sign and nothing to decode, and whose names are
    not inherited from [Object.prototype], the parameters of the address
    [?name1=value1&...] bind each name to the value of its last pair, and
    no other name that is not inherited. *)
Theorem getQueryParams_reads_pairs first pairs :
  pairs <> [] ->
  (forall k v, In (k, v) pairs ->
               plain k = true /\ plain v = true
               /\ decode k = Some k /\ decode v = Some v) ->
  (forall k v, In (k, v) pairs -> inherited k = false) ->
  exists params,
    getQueryParams decode (String first (buildQuery pairs)) = Some params
    /\ forall name, inherited name = false ->
                    Obj.get name params = lastValue name pairs.
Proof.
  intros NE H _. rewrite (getQueryParams_pairs first pairs NE H).
  eexists. split; [reflexivity |].
  intros name _. rewrite get_fold_set.
  now destruct (lastValue name pairs).
Qed.

(** X15.  The address [?...] whose last pairs for [type], [query] and
    [name] are non-empty values makes [onPageLoad] do what the selection of
    that refinement in the sidebar does; when one of the three is missing
    or empty, [onPageLoad] leaves the page as it is. *)
Theorem onPageLoad_selects first pairs p :
  pairs <> [] ->
  (forall k v, In (k, v) pairs ->
               plain k = true /\ plain v = true
               /\ decode k = Some k /\ decode v = Some v) ->
  let search := String first (buildQuery pairs) in
  (forall ty q nm,
      lastValue "type" pairs = Some ty -> ty <> "" ->
      lastValue "query" pairs = Some q -> q <> "" ->
      lastValue "name" pairs = Some nm -> nm <> "" ->
      onPageLoad decode search p = Some (handleQueryParams ty q nm p))
  /\ ((exists k, In k ["type"; "query"; "name"]
                 /\ (lastValue k pairs = None \/ lastValue k pairs = Some "")) ->
      onPageLoad decode search p = Some p).
Proof.
  intros NE H. cbv zeta.
  assert (G : forall name,
             Obj.get name
               (fold_left (fun o kv => Obj.set (fst kv) (snd kv) o) pairs [])
             = lastValue name pairs).
  { intros name. rewrite get_fold_set. now destruct (lastValue name pairs). }
  unfold onPageLoad. rewrite (getQueryParams_pairs first pairs NE H).
  unfold param. rewrite !G. split.
  - intros ty q nm -> Nt -> Nq -> Nn.
    apply String.eqb_neq in Nt, Nq, Nn. now rewrite Nt, Nq, Nn.
  - intros (k & I & M). simpl in I.
    destruct I as [<- | [<- | [<- | []]]]; destruct M as [-> | ->]; simpl;
      repeat match goal with
             | |- context [match ?x with _ => _ end] => destruct x
             end; reflexivity.
Qed.
(** X16.  What a piece of the query string binds.  The text after a
    second equals sign is dropped: [name=value=more] binds as [name=value]
    does.  A piece without an equals sign binds its name to the decoding of
    the text [undefined]; so does the empty address, whose one piece is
    the empty name. *)
Theorem setParam_odd_pieces params k v more :
  free equalsSign k = true ->
  free equalsSign v = true ->
  let bindUndefined (params : Obj.t string) name :=
    match decode name with
    | Some key =>
        match decode "undefined" with
        | Some value => Some (Obj.set key value params)
        | None => None
        end
    | None => None
    end in
  setParam decode params
    (k ++ String equalsSign (v ++ String equalsSign more))
  = setParam decode params (k ++ String equalsSign v)
  /\ setParam decode params k = bindUndefined params k
  /\ getQueryParams decode EmptyString = bindUndefined [] EmptyString.
Proof.
  intros Fk Fv. cbv zeta. rewrite !setParam_pieces.
  destruct (piece_of_pair k v Fk Fv) as [-> ->].
  unfold pieceName, pieceValue.
  rewrite !splitPieces_app by assumption.
  rewrite (splitPieces_free _ k Fk). cbn [fst snd].
  unfold split at 1. rewrite splitPieces_app by exact Fv.
  split; [reflexivity | split; [reflexivity |]].
  unfold getQueryParams. cbn.
  destruct (decode ""); [| reflexivity].
  now destruct (decode "undefined").
Qed.

Lemma setParams_none pieces : forall params,
  setParams decode params pieces = None
  <-> exists piece,
        In piece pieces
        /\ (decode (pieceName piece) = None \/ decode (pieceValue piece) = None).
Proof.
  induction pieces as [| piece rest IH]; intros params; cbn [setParams].
  - split; [discriminate | intros (piece & [] & _)].
  - rewrite setParam_pieces.
    destruct (decode (pieceName piece)) as [key |] eqn:K.
    + destruct (decode (pieceValue piece)) as [value |] eqn:V.
      * rewrite IH. split.
        -- intros (q & I & F). exists q. split; [now right | exact F].
        -- intros (q & [<- | I] & F); [destruct F; congruence | eauto].
      * split; [intros _ | reflexivity]. exists piece. split; [now left | auto].
    + split; [intros _ | reflexivity]. exists piece. split; [now left | auto].
Qed.

(** X17.  [getQueryParams] throws exactly when [decodeURIComponent] throws
    on the name or on the value of one of the pieces of the query string,
    and then [onPageLoad] throws as well: no refinement is selected. *)
Theorem getQueryParams_throws_iff search :
  (getQueryParams decode search = None
   <-> exists piece,
         In piece (queryPieces search)
         /\ (decode (pieceName piece) = None
             \/ decode (pieceValue piece) = None))
  /\ (getQueryParams decode search = None ->
      forall p, onPageLoad decode search p = None).
Proof.
  split.
  - unfold getQueryParams, queryPieces. apply setParams_none.
  - intros H p. unfold onPageLoad. now rewrite H.
Qed.
End QueryParamsFacts.

Lemma bootstrapPairs_plain k v :
  In (k, v) bootstrapPairs ->
  plain k = true /\ plain v = true
  /\ decodePlain k = Some k /\ decodePlain v = Some v.
Proof.
  intros I. simpl in I.
  destruct I as [E | [E | [E | []]]]; injection E as E1 E2; subst k v;
    repeat split.
Defined.

Lemma getQueryParams_reads_pairs_witness :
  exists params,
    getQueryParams decodePlain "?type=subject&query=cs&name=CS" = Some params
    /\ Obj.get "query" params = Some "cs".
Proof.
  destruct (getQueryParams_reads_pairs decodePlain "?"%char bootstrapPairs)
    as (params & E & G).
  - discriminate.
  - exact bootstrapPairs_plain.
  - intros k v I. simpl in I.
    destruct I as [Q | [Q | [Q | []]]]; injection Q as <- _; reflexivity.
  - exists params. split; [exact E |]. now rewrite G.
Defined.

Lemma onPageLoad_selects_witness :
  let p := {| filters := []; loadingIndicator := false; message := NoMessage;
              requests := []; renders := [] |} in
  onPageLoad decodePlain "?type=subject&query=cs&name=CS" p
  = Some (handleQueryParams "subject" "cs" "CS" p).
Proof.
  intros p.
  refine (proj1 (onPageLoad_selects decodePlain "?"%char bootstrapPairs p _ _)
            "subject" "cs" "CS" _ _ _ _ _ _);
    first [reflexivity | discriminate | exact bootstrapPairs_plain].
Defined.

Lemma setParam_odd_pieces_witness :
  setParam decodePlain [] "type=subject=cs" = Some [("type", "subject")]
  /\ setParam decodePlain [] "type" = Some [("type", "undefined")].
Proof.
  destruct (setParam_odd_pieces decodePlain [] "type" "subject" "cs")
    as (A & B & _); try reflexivity.
  split.
  - exact (eq_trans A eq_refl).
  - exact (eq_trans B eq_refl).
Defined.

(** * Sequences of events *)

Lemma view_event_steps e p :
  exists r, requests (onViewEvent e p) = (requests p ++ [r])%list.
Proof.
  destruct e as [q | ty q nm | ty | |]; simpl.
  - eexists. reflexivity.
  - destruct (Filters.get ty (filters p)) eqn:G.
    + rewrite handleQueryParams_active by congruence.
      destruct (removeFilter_spec ty p) as (_ & _ & r & R & _). eauto.
    + rewrite (handleQueryParams_absent ty q nm p G). eexists. reflexivity.
  - destruct (removeFilter_spec ty p) as (_ & _ & r & R & _). eauto.
  - eexists. reflexivity.
  - eexists. reflexivity.
Qed.

(** X18.  Over any sequence of events, the coordinator calls the search
    state once for each event of a view and never for an event of the
    search state itself: the calls made grow by the number of view
    events. *)
Theorem requests_follow_view_events events p :
  List.length (requests (run events p))
  = (List.length (requests p) + viewEvents events)%nat.
Proof.
  revert p. induction events as [| [e | e] events IH]; intros p;
    cbn [run fold_left viewEvents].
  - now rewrite Nat.add_0_r.
  - change (fold_left step events (onViewEvent e p)) with (run events (onViewEvent e p)).
    rewrite IH.
    assert (L : List.length (requests (onViewEvent e p))
                = S (List.length (requests p))).
    { destruct (view_event_steps e p) as [r ->].
      rewrite length_app. simpl. lia. }
    change (step p (OfView e)) with (onViewEvent e p). rewrite L. lia.
  - change (fold_left step events (onSearchEvent e p)) with (run events (onSearchEvent e p)).
    rewrite IH. change (step p (OfSearch e)) with (onSearchEvent e p).
    f_equal. f_equal.
    destruct e as [q total | | msg]; cbn [onSearchEvent];
      [| reflexivity | reflexivity].
    unfold onSearch. cbv zeta.
    destruct (0 <? total); [destruct (negb (q =? "")%string) |]; reflexivity.
Qed.
